(** * Sportbase: the Instat event extractor and its query layer

    A shallow embedding of [instat_parser.py] (class [InstatEventParser]) and of
    the player-name decomposition that [streamlit_app.py] and
    [player_report.py] perform on the [code] column, followed by the
    properties of the specification that concern them.

    Conventions of the embedding.
    - A Python [str] is a [string]; every character stands for one code
      point in the range 0..255.
    - A Python [float] is an IEEE-754 binary64 number, that is a primitive
      [float]; a Python [int] is a [Z].
    - A Python [dict] is a [gmap], a [set] a [gset]; [None] is the [None] of
      [option].
    - A Python exception is the [Raise] of the [result] monad. *)

From Stdlib Require Import ZArith Floats Ascii.
From stdpp Require Import base option list strings gmap sorting.

Local Open Scope string_scope.
Set Warnings "-register-all,-clear-no-such-hyp".

(** ** Exceptions *)

Inductive exn : Type :=
  | ValueError
  | TypeError
  | KeyError
  | IndexError.

Inductive result (A : Type) : Type :=
  | Return (a : A)
  | Raise (e : exn).

Arguments Return {A} a.
Arguments Raise {A} e.

#[global] Instance result_ret : MRet result := fun _ a => Return a.
#[global] Instance result_bind : MBind result := fun _ _ f m =>
  match m with
  | Return a => f a
  | Raise e => Raise e
  end.

Definition raises {A} (m : result A) : Prop := ∃ e, m = Raise e.
Definition returns {A} (m : result A) : Prop := ∃ a, m = Return a.

(** ** Python built-ins on strings and sequences *)

(** [seq[i]] for a non-negative literal index. *)
Definition py_index {A} (l : list A) (i : nat) : result A :=
  match l !! i with
  | Some x => Return x
  | None => Raise IndexError
  end.

(** [str.isspace] on one character, for the code points below 256. *)
Definition py_isspace (c : ascii) : bool :=
  let n := nat_of_ascii c in
  (((9 <=? n) && (n <=? 13)) || ((28 <=? n) && (n <=? 32))
   || (n =? 133) || (n =? 160))%nat.

(** The whitespace that [int] and [float] skip around a number: code points
    below 127 count when C's [isspace] holds, the others when
    [str.isspace] does.  The separators 28..31 are not skipped. *)
Definition num_isspace (c : ascii) : bool :=
  let n := nat_of_ascii c in
  (((9 <=? n) && (n <=? 13)) || (n =? 32) || (n =? 133) || (n =? 160))%nat.

Fixpoint lstrip_with (space : ascii → bool) (s : string) : string :=
  match s with
  | String c s' => if space c then lstrip_with space s' else s
  | EmptyString => EmptyString
  end.

Definition strip_with (space : ascii → bool) (s : string) : string :=
  String.rev (lstrip_with space (String.rev (lstrip_with space s))).

(** [s.strip()] *)
Definition str_strip (s : string) : string := strip_with py_isspace s.

(** [s.find(sub)]: the lowest index at which [sub] occurs in [s]. *)
Fixpoint str_find (s sub : string) : option nat :=
  if String.prefix sub s then Some 0
  else match s with
       | String _ s' => S <$> str_find s' sub
       | EmptyString => None
       end.

(** [sub in s] *)
Definition str_contains (sub s : string) : bool := bool_decide (is_Some (str_find s sub)).

Fixpoint str_take (n : nat) (s : string) : string :=
  match n, s with
  | S n', String c s' => String c (str_take n' s')
  | _, _ => EmptyString
  end.

Fixpoint str_drop (n : nat) (s : string) : string :=
  match n, s with
  | S n', String _ s' => str_drop n' s'
  | _, _ => s
  end.

(** The loop of [s.split(sep, maxsplit)] for a non-empty [sep]: cut at the
    leftmost occurrence while the budget of cuts lasts.  [fuel] bounds the
    number of cuts; [S (String.length s)] is more than any string needs. *)
Fixpoint split_loop (fuel : nat) (maxsplit : option nat) (sep s : string) : list string :=
  match fuel with
  | O => [s]
  | S fuel' =>
      match maxsplit with
      | Some O => [s]
      | _ =>
          match str_find s sep with
          | None => [s]
          | Some i =>
              str_take i s
              :: split_loop fuel' (pred <$> maxsplit) sep
                   (str_drop (i + String.length sep) s)
          end
      end
  end.

(** [s.split(sep)] ([maxsplit = None]) and [s.split(sep, n)]
    ([maxsplit = Some n]); an empty separator is a [ValueError]. *)
Definition str_split (s sep : string) (maxsplit : option nat) : result (list string) :=
  match sep with
  | EmptyString => Raise ValueError
  | _ => Return (split_loop (S (String.length s)) maxsplit sep s)
  end.

(** Truth value of a string: non-empty. *)
Definition str_truthy (s : string) : bool :=
  match s with
  | EmptyString => false
  | _ => true
  end.

(** ** Numeric conversions: [int(text)] and [float(text)] *)

(** Both follow the grammar of the language reference; a digit is one of
    0..9, the only decimal digits among the code points below 256. *)

Definition digit_val (c : ascii) : option Z :=
  let n := Z.of_nat (nat_of_ascii c) in
  if ((48 <=? n) && (n <=? 57))%Z then Some (n - 48)%Z else None.

Definition is_digit (c : ascii) : bool := bool_decide (is_Some (digit_val c)).

(** The rest of a [digitpart] once a digit has been read: digits, each
    optionally preceded by one underscore. *)
Fixpoint scan_more (s : string) : list Z * string :=
  match s with
  | String c s' =>
      match digit_val c with
      | Some d => let '(ds, r) := scan_more s' in (d :: ds, r)
      | None =>
          if Ascii.eqb c "_" then
            match s' with
            | String c' _ => if is_digit c' then scan_more s' else ([], s)
            | EmptyString => ([], s)
            end
          else ([], s)
      end
  | EmptyString => ([], s)
  end.

(** [digitpart ::= digit (["_"] digit)*]: the digits of the longest such
    prefix and what follows it; no digits when [s] starts with none. *)
Definition scan_digitpart (s : string) : list Z * string :=
  match s with
  | String c _ => if is_digit c then scan_more s else ([], s)
  | EmptyString => ([], s)
  end.

Definition digits_value (ds : list Z) : Z :=
  fold_left (fun acc d => 10 * acc + d)%Z ds 0%Z.

Definition scan_sign (s : string) : bool * string :=
  match s with
  | String c s' =>
      if Ascii.eqb c "-" then (true, s')
      else if Ascii.eqb c "+" then (false, s')
      else (false, s)
  | EmptyString => (false, s)
  end.

(** The interpreter's default limit on the digits of a string that [int]
    converts ([sys.get_int_max_str_digits()]). *)
Definition int_max_str_digits : nat := 4300.

(** [int(s)] for a string: surrounding whitespace, a sign, decimal digits. *)
Definition str_to_int (s : string) : result Z :=
  let '(neg, r) := scan_sign (strip_with num_isspace s) in
  match scan_digitpart r with
  | (d :: ds, EmptyString) =>
      if (int_max_str_digits <? length (d :: ds))%nat then Raise ValueError
      else
        let v := digits_value (d :: ds) in
        Return (if neg then (- v)%Z else v)
  | _ => Raise ValueError
  end.

(** [int(elem.text)]: the text of an element may be [None]. *)
Definition py_int (text : option string) : result Z :=
  match text with
  | Some s => str_to_int s
  | None => Raise TypeError
  end.

Definition ascii_lower (c : ascii) : ascii :=
  let n := nat_of_ascii c in
  if ((65 <=? n) && (n <=? 90))%nat then ascii_of_nat (n + 32) else c.

Fixpoint str_lower (s : string) : string :=
  match s with
  | String c s' => String (ascii_lower c) (str_lower s')
  | EmptyString => EmptyString
  end.

(** The binary64 number nearest to [±m * 10^e10] (ties to even, overflow to
    infinity), as the correctly rounded quotient of two integers. *)
Definition decimal_to_float (neg : bool) (m e10 : Z) : float :=
  if (m =? 0)%Z then SF2Prim (S754_zero neg)
  else
    let num := (m * 10 ^ Z.max e10 0)%Z in
    let den := (10 ^ Z.max (- e10) 0)%Z in
    SF2Prim (SFdiv prec emax
               (S754_finite neg (Z.to_pos num) 0)
               (S754_finite false (Z.to_pos den) 0)).

(** [exponent ::= ("e" | "E") [sign] digitpart]; absent means 0. *)
Definition scan_exponent (s : string) : option (Z * string) :=
  match s with
  | String c s' =>
      if Ascii.eqb (ascii_lower c) "e" then
        let '(neg, r) := scan_sign s' in
        match scan_digitpart r with
        | (d :: ds, r') =>
            let v := digits_value (d :: ds) in
            Some (if neg then (- v)%Z else v, r')
        | _ => None
        end
      else Some (0%Z, s)
  | EmptyString => Some (0%Z, s)
  end.

(** [float(s)] for a string: surrounding whitespace, a sign, then
    [inf], [infinity], [nan] (in any case) or
    [([digitpart] "." digitpart | digitpart ["."]) [exponent]]. *)
Definition str_to_float (s : string) : result float :=
  let '(neg, r) := scan_sign (strip_with num_isspace s) in
  let l := str_lower r in
  if bool_decide (l = "inf" ∨ l = "infinity") then
    Return (if neg then neg_infinity else infinity)
  else if bool_decide (l = "nan") then Return nan
  else
    let '(ip, r1) := scan_digitpart r in
    let '(fp, r2) :=
      match r1 with
      | String c r1' => if Ascii.eqb c "." then scan_digitpart r1' else ([], r1)
      | EmptyString => ([], r1)
      end in
    if bool_decide (ip = [] ∧ fp = []) then Raise ValueError
    else
      match scan_exponent r2 with
      | Some (e, EmptyString) =>
          Return (decimal_to_float neg (digits_value (ip ++ fp)%list)
                    (e - Z.of_nat (length fp)))
      | _ => Raise ValueError
      end.

(** [float(elem.text)] *)
Definition py_float (text : option string) : result float :=
  match text with
  | Some s => str_to_float s
  | None => Raise TypeError
  end.

(** ** Numbers: comparison, [min] and [max] *)

(** A Python number as the summary holds it: the literal [0] is an [int],
    the times are [float]s. *)
Inductive pynum : Type :=
  | PyInt (z : Z)
  | PyFloat (f : float).

(** Exact comparison of an integer with a float, as [float.__lt__] and
    [float.__gt__] do it: [int_lt_float z f] is [z < f] and
    [float_lt_int f z] is [f < z]; both are [False] on [nan]. *)
Definition int_cmp_float (z : Z) (f : float) : option comparison :=
  match Prim2SF f with
  | S754_nan => None
  | S754_infinity s => Some (if s then Gt else Lt)
  | S754_zero _ => Some (z ?= 0)%Z
  | S754_finite s m e =>
      let v := (if s then Z.neg m else Z.pos m) in
      Some (if (0 <=? e)%Z then (z ?= v * 2 ^ e)%Z
            else (z * 2 ^ (- e) ?= v)%Z)
  end.

Definition int_lt_float (z : Z) (f : float) : bool :=
  bool_decide (int_cmp_float z f = Some Lt).
Definition float_lt_int (f : float) (z : Z) : bool :=
  bool_decide (int_cmp_float z f = Some Gt).

(** [a < b] *)
Definition num_lt (a b : pynum) : bool :=
  match a, b with
  | PyInt x, PyInt y => (x <? y)%Z
  | PyFloat x, PyFloat y => (x <? y)%float
  | PyInt x, PyFloat y => int_lt_float x y
  | PyFloat x, PyInt y => float_lt_int x y
  end.

(** [min(a, b)]: the second argument replaces the first only when it is
    strictly smaller. *)
Definition py_min (a b : pynum) : pynum := if num_lt b a then b else a.

(** [max(a, b)]: the second argument replaces the first only when it is
    strictly greater. *)
Definition py_max (a b : pynum) : pynum := if num_lt a b then b else a.

(** ** The parsed document ([xml.etree.ElementTree]) *)

Inductive Element : Type :=
  | Elem (tag : string) (text : option string) (children : list Element).

Definition tag (e : Element) : string := let '(Elem t _ _) := e in t.
Definition text (e : Element) : option string := let '(Elem _ x _) := e in x.
Definition children (e : Element) : list Element := let '(Elem _ _ cs) := e in cs.

Definition has_tag (name : string) (e : Element) : bool := bool_decide (tag e = name).

(** [elem.findall(name)]: the direct children with that tag, in document
    order. *)
Definition findall (e : Element) (name : string) : list Element :=
  List.filter (has_tag name) (children e).

(** [elem.find(name)]: the first direct child with that tag. *)
Definition find (e : Element) (name : string) : option Element :=
  head (findall e name).

(** [elem.iter()]: the element and all its descendants in document order. *)
Fixpoint iter (e : Element) : list Element :=
  match e with
  | Elem _ _ cs =>
      e :: (fix iter_all (l : list Element) : list Element :=
              match l with
              | [] => []
              | c :: l' => (iter c ++ iter_all l')%list
              end) cs
  end.

(** [elem.find('.//name')]: the first proper descendant with that tag. *)
Definition find_descendant (e : Element) (name : string) : option Element :=
  head (List.filter (has_tag name) (tail (iter e))).

(** Truth value of an element: it has at least one child. *)
Definition elem_truthy (e : Element) : bool :=
  match children e with
  | [] => false
  | _ => true
  end.

(** ** The extractor *)

(** One event: the dictionary [_parse_instance] builds.  A key the source
    instance does not give is absent ([None]); [code] and the label groups
    and values hold an element's text, which may itself be [None]. *)
Record event : Type := mk_event {
  event_id : option Z;
  start_time : option float;
  end_time : option float;
  code : option (option string);
  labels : gmap (option string) (option string);
}.

(** The parser object: the loaded root and the extracted events. *)
Record parser : Type := mk_parser {
  root : option Element;
  events : list event;
}.

(** [__init__]: nothing is loaded, no event is held. *)
Definition new_parser : parser := {| root := None; events := [] |}.

(** The state after a successful [parse_xml]. *)
Definition loaded (doc : Element) : parser := {| root := Some doc; events := [] |}.

(** The numeric field of an instance: absent when the child is, converted
    when it is present. *)
Definition parse_field {A} (conv : option string → result A) (child : option Element)
  : result (option A) :=
  match child with
  | Some elem => v ← conv (text elem); mret (Some v)
  | None => mret None
  end.

(** The labels loop of [_parse_instance]: [labels[group] = text] for each
    label child that has both sub-elements. *)
Definition add_label (acc : gmap (option string) (option string)) (label : Element)
  : gmap (option string) (option string) :=
  match find label "group", find label "text" with
  | Some group_elem, Some text_elem => <[text group_elem := text text_elem]> acc
  | _, _ => acc
  end.

Definition _parse_instance (instance : Element) : result event :=
  let id_elem := find instance "ID" in
  let start_elem := find instance "start" in
  let end_elem := find instance "end" in
  let code_elem := find instance "code" in
  id ← parse_field py_int id_elem;
  st ← parse_field py_float start_elem;
  en ← parse_field py_float end_elem;
  let labels := fold_left add_label (findall instance "label") ∅ in
  mret {| event_id := id; start_time := st; end_time := en;
          code := text <$> code_elem; labels := labels |}.

Definition key_count {A} (field : option A) : nat :=
  match field with
  | Some _ => 1
  | None => 0
  end.

(** Number of keys of the event dictionary; [labels] is always one. *)
Definition event_len (e : event) : nat :=
  key_count (event_id e) + key_count (start_time e) + key_count (end_time e)
  + key_count (code e) + 1.

(** Truth value of an event: a non-empty dictionary. *)
Definition event_truthy (e : event) : bool := negb (event_len e =? 0)%nat.

(** The loop of [extract_events] over the instances, appending to
    [self.events]; an exception leaves the events appended so far. *)
Fixpoint extract_loop (instances : list Element) (acc : list event)
  : result unit * list event :=
  match instances with
  | [] => (Return (), acc)
  | instance :: rest =>
      match _parse_instance instance with
      | Return ev =>
          extract_loop rest (if event_truthy ev then (acc ++ [ev])%list else acc)
      | Raise e => (Raise e, acc)
      end
  end.

(** [extract_events]: the value returned ([None] for a bare [return]) or the
    exception raised, and the parser afterwards. *)
Definition extract_events (self : parser) : result (option (list event)) * parser :=
  match root self with
  | None => (Return None, self)
  | Some r =>
      if negb (elem_truthy r) then (Return None, self)
      else
        match find_descendant r "ALL_INSTANCES" with
        | None => (Return None, self)
        | Some instances =>
            let '(res, evs) := extract_loop (findall instances "instance") [] in
            let self' := {| root := root self; events := evs |} in
            (_ ← res; mret (Some evs), self')
        end
  end.

(** ** The query layer *)

(** [event.get('labels', {}).get(group)]: [None] when the group is absent
    and when its value is [None]. *)
Definition labels_get (ev : event) (group : string) : option string :=
  mjoin (labels ev !! Some group).

(** [event.get('labels', {}).get(group, '')]: the default replaces an
    absent group only. *)
Definition labels_get_default (ev : event) (group dflt : string) : option string :=
  default (Some dflt) (labels ev !! Some group).

(** [sub in container] where the container may be [None]. *)
Definition py_in (sub : string) (container : option string) : result bool :=
  match container with
  | Some s => Return (str_contains sub s)
  | None => Raise TypeError
  end.

(** A list comprehension [[x for x in l if cond(x)]] whose condition may
    raise: elements are tested in order and the first exception ends it. *)
Fixpoint comprehension {A} (cond : A → result bool) (l : list A) : result (list A) :=
  match l with
  | [] => Return []
  | x :: l' =>
      b ← cond x;
      rest ← comprehension cond l';
      mret (if b : bool then x :: rest else rest)
  end.

Definition get_events_by_action (self : parser) (action_type : string) : list event :=
  List.filter (fun ev => bool_decide (labels_get ev "Action" = Some action_type))
    (events self).

Definition get_events_by_team (self : parser) (team_name : string) : result (list event) :=
  comprehension (fun ev => py_in team_name (labels_get_default ev "Team" ""))
    (events self).

Definition get_events_by_half (self : parser) (half : string) : list event :=
  List.filter (fun ev => bool_decide (labels_get ev "Half" = Some half))
    (events self).

Record time_range_t : Type := mk_time_range {
  tr_start : pynum;
  tr_end : pynum;
}.

(** The [stats] dictionary while the loop runs: [teams] is still a set. *)
Record stats_acc : Type := mk_stats_acc {
  acc_teams : gset string;
  acc_actions : gmap string nat;
  acc_halves : gmap string nat;
  acc_time_range : time_range_t;
}.

(** The [stats] dictionary returned: [teams] has become a list. *)
Record summary_stats : Type := mk_summary_stats {
  total_events : nat;
  teams : list string;
  actions : gmap string nat;
  halves : gmap string nat;
  time_range : time_range_t;
}.

(** What [get_summary_stats] returns: the empty dictionary or [stats]. *)
Inductive stats_dict : Type :=
  | EmptyDict
  | Stats (s : summary_stats).

(** [d[key] = d.get(key, 0) + 1] *)
Definition count_up (d : gmap string nat) (key : string) : gmap string nat :=
  <[key := default 0%nat (d !! key) + 1]> d.

(** [event[key]] for a key that may be missing. *)
Definition subscript {A} (field : option A) : result A :=
  match field with
  | Some v => Return v
  | None => Raise KeyError
  end.

(** One iteration of the loop of [get_summary_stats]. *)
Definition summary_step (st : stats_acc) (ev : event) : result stats_acc :=
  let teams1 :=
    match labels_get ev "Team" with
    | Some team =>
        if str_truthy team && bool_decide (team ≠ "None")
        then {[team]} ∪ acc_teams st else acc_teams st
    | None => acc_teams st
    end in
  let actions1 :=
    match labels_get ev "Action" with
    | Some action => if str_truthy action then count_up (acc_actions st) action
                     else acc_actions st
    | None => acc_actions st
    end in
  let halves1 :=
    match labels_get ev "Half" with
    | Some half => if str_truthy half then count_up (acc_halves st) half
                   else acc_halves st
    | None => acc_halves st
    end in
  match start_time ev with
  | Some s =>
      let start1 := py_min (tr_start (acc_time_range st)) (PyFloat s) in
      e ← subscript (end_time ev);
      let end1 := py_max (tr_end (acc_time_range st)) (PyFloat e) in
      mret (mk_stats_acc teams1 actions1 halves1 (mk_time_range start1 end1))
  | None =>
      mret (mk_stats_acc teams1 actions1 halves1 (acc_time_range st))
  end.

Fixpoint summary_loop (st : stats_acc) (evs : list event) : result stats_acc :=
  match evs with
  | [] => Return st
  | ev :: rest => st1 ← summary_step st ev; summary_loop st1 rest
  end.

Definition initial_stats : stats_acc :=
  mk_stats_acc ∅ ∅ ∅ (mk_time_range (PyFloat infinity) (PyInt 0)).

Definition get_summary_stats (self : parser) : result stats_dict :=
  match events self with
  | [] => Return EmptyDict
  | _ =>
      st ← summary_loop initial_stats (events self);
      mret (Stats {| total_events := length (events self);
                     teams := elements (acc_teams st);
                     actions := acc_actions st;
                     halves := acc_halves st;
                     time_range := acc_time_range st |})
  end.

(** ** Player names *)

(** The body of the loop of [get_player_list_from_df] (and of
    [PlayerReport.get_player_list]) for one [code]: the name it adds to
    [players], if any. *)
Definition decompose_player_code (code : string) : result (option string) :=
  if str_contains " - " code && str_contains "." code && str_contains "(" code then
    parts ← str_split code " - " None;
    player_part ← py_index parts 0;
    after_dot ← (l ← str_split player_part "." (Some 1); py_index l 1);
    before_paren ← (l ← str_split after_dot "(" None; py_index l 0);
    let player_name := str_strip before_paren in
    if str_truthy player_name && bool_decide (player_name ≠ "None")
    then mret (Some player_name)
    else mret None
  else mret None.

(** [a <= b] on strings: lexicographic by code point. *)
Definition str_le (a b : string) : Prop := String.leb a b = true.

#[global] Instance str_le_dec : RelDecision str_le :=
  fun a b => decide (String.leb a b = true).

Fixpoint players_loop (players : gset string) (codes : list string) : result (gset string) :=
  match codes with
  | [] => Return players
  | code :: rest =>
      name ← decompose_player_code code;
      players_loop (match name with
                    | Some n => {[n]} ∪ players
                    | None => players
                    end) rest
  end.

(** [get_player_list_from_df], on the non-null values of the [code]
    column: the distinct names, sorted. *)
Definition get_player_list_from_df (codes : list string) : result (list string) :=
  players ← players_loop ∅ codes;
  mret (merge_sort str_le (elements players)).

(** ** The simple CSV export *)

(** [c.lower()] on one character, for the code points below 256. *)
Definition py_lower_char (c : ascii) : ascii :=
  let n := nat_of_ascii c in
  if (((65 <=? n) && (n <=? 90))
      || ((192 <=? n) && (n <=? 222) && negb (n =? 215)))%nat
  then ascii_of_nat (n + 32) else c.

(** [s.lower()] *)
Fixpoint py_lower (s : string) : string :=
  match s with
  | String c s' => String (py_lower_char c) (py_lower s')
  | EmptyString => EmptyString
  end.

(** A value handed to the csv writer: an [int], a [float], or a string or
    [None]. *)
Inductive cell : Type :=
  | CellInt (z : Z)
  | CellFloat (f : float)
  | CellText (t : option string).

(** [all_label_keys]: the label groups of all events. *)
Definition all_label_keys (evs : list event) : gset (option string) :=
  fold_left (fun acc ev => acc ∪ dom (labels ev)) evs ∅.

(** [sorted(all_label_keys)], as far as the export gets with it.  A group
    that is [None] stops the export: when there is another group [sorted]
    cannot compare them, and when it is alone [key.lower()] fails on it. *)
Definition sorted_label_keys (keys : gset (option string)) : option (list string) :=
  if decide (None ∈ keys) then None
  else Some (merge_sort str_le (omap (fun k => k) (elements keys))).

(** [event.get(key, '')] as a cell. *)
Definition cell_of {A} (mk : A → cell) (field : option A) : cell :=
  match field with
  | Some v => mk v
  | None => CellText (Some "")
  end.

Definition csv_headers (keys : list string) : list string :=
  (["id"; "start_time"; "end_time"; "code"]
   ++ map (fun key => "label_" +:+ py_lower key) keys)%list.

Definition csv_row (keys : list string) (ev : event) : list cell :=
  ([cell_of CellInt (event_id ev); cell_of CellFloat (start_time ev);
    cell_of CellFloat (end_time ev); cell_of CellText (code ev)]
   ++ map (fun key => CellText (labels_get_default ev key "")) keys)%list.

(** What [export_to_simple_csv] hands to the csv writer, the header and one
    row per event; [None] when it writes nothing: there are no events, or
    building the header raises, which the function catches before it opens
    the file.  The file system and the csv quoting are outside the model. *)
Definition export_to_simple_csv (self : parser)
  : option (list string * list (list cell)) :=
  match events self with
  | [] => None
  | _ =>
      keys ← sorted_label_keys (all_label_keys (events self));
      Some (csv_headers keys, map (csv_row keys) (events self))
  end.

(** ** The vocabulary of the specification *)

(** The fully-zeroed summary the specification names for "no data". *)
Definition zeroed_stats : summary_stats :=
  {| total_events := 0; teams := []; actions := ∅; halves := ∅;
     time_range := mk_time_range (PyFloat infinity) (PyInt 0) |}.

(** The part of [s] before the first occurrence of [sep]; all of [s] when
    there is none. *)
Definition before_first (sep s : string) : string :=
  match str_find s sep with
  | Some i => str_take i s
  | None => s
  end.

(** The part of [s] after the first occurrence of [sep], when there is one. *)
Definition after_first (sep s : string) : option string :=
  match str_find s sep with
  | Some i => Some (str_drop (i + String.length sep) s)
  | None => None
  end.

(** The three structural markers of a player code. *)
Definition has_markers (code : string) : bool :=
  str_contains " - " code && str_contains "." code && str_contains "(" code.

(** The trimmed middle segment: before the first [" - "], then after the
    first ["."], then before the first ["("]. *)
Definition name_segment (code : string) : option string :=
  (fun x => str_strip (before_first "(" x))
    <$> after_first "." (before_first " - " code).

(** Decomposition as the specification words it: every code with the three
    markers yields its trimmed middle segment, every other code no name. *)
Definition decomposes_as_specified (code : string) : Prop :=
  if has_markers code
  then ∃ seg, name_segment code = Some seg
              ∧ decompose_player_code code = Return (Some seg)
  else decompose_player_code code = Return None.

(** The query occurs in the Team label the event carries. *)
Definition team_label_contains (query : string) (ev : event) : bool :=
  match labels ev !! Some "Team" with
  | Some (Some team) => str_contains query team
  | _ => false
  end.

(** The query occurs in the Team label, an absent label read as [""]. *)
Definition team_or_empty_contains (query : string) (ev : event) : bool :=
  str_contains query (default "" (labels_get ev "Team")).

(** The Team filter as the specification words it: exactly the events whose
    Team label contains the query. *)
Definition team_filter_as_specified (self : parser) (query : string) : Prop :=
  get_events_by_team self query
  = Return (List.filter (team_label_contains query) (events self)).

(** No event carries a Team label whose value the source left empty. *)
Definition team_values_present (evs : list event) : Prop :=
  ∀ ev, ev ∈ evs → labels ev !! Some "Team" ≠ Some None.

(** A numeric child of an instance that is present and does not convert. *)
Definition bad_numeric_field (instance : Element) : Prop :=
  (∃ el, find instance "ID" = Some el ∧ raises (py_int (text el)))
  ∨ (∃ el, find instance "start" = Some el ∧ raises (py_float (text el)))
  ∨ (∃ el, find instance "end" = Some el ∧ raises (py_float (text el))).

(** A numeric child of an instance whose text is not a number. *)
Definition non_numeric_field (instance : Element) : Prop :=
  (∃ el t, find instance "ID" = Some el ∧ text el = Some t
           ∧ str_to_int t = Raise ValueError)
  ∨ (∃ el t, find instance "start" = Some el ∧ text el = Some t
             ∧ str_to_float t = Raise ValueError)
  ∨ (∃ el t, find instance "end" = Some el ∧ text el = Some t
             ∧ str_to_float t = Raise ValueError).

(** Every numeric child that is present has a text. *)
Definition numeric_texts_present (instance : Element) : Prop :=
  ∀ name el, name ∈ ["ID"; "start"; "end"] →
             find instance name = Some el → is_Some (text el).

(** Every numeric child that is present converts. *)
Definition numeric_fields_ok (instance : Element) : Prop :=
  (∀ el, find instance "ID" = Some el → returns (py_int (text el)))
  ∧ (∀ el, find instance "start" = Some el → returns (py_float (text el)))
  ∧ (∀ el, find instance "end" = Some el → returns (py_float (text el))).

(** A well-formed document: it has the container, and the numeric fields of
    the container's instances are numbers. *)
Definition well_formed (doc container : Element) : Prop :=
  find_descendant doc "ALL_INSTANCES" = Some container
  ∧ ∀ instance, instance ∈ findall container "instance" → numeric_fields_ok instance.

(** The start times of the events that carry one. *)
Definition start_times (evs : list event) : list float := omap start_time evs.

(** The end times of the events that carry one. *)
Definition end_times (evs : list event) : list float := omap end_time evs.

(** The end times of the events that carry a start time. *)
Definition started_end_times (evs : list event) : list float :=
  omap (fun ev => match start_time ev with
                  | Some _ => end_time ev
                  | None => None
                  end) evs.

(** Every event with a start time has an end time. *)
Definition starts_have_ends (evs : list event) : Prop :=
  ∀ ev, ev ∈ evs → is_Some (start_time ev) → is_Some (end_time ev).

(** [x] is a least element of [l] for Python's [<]. *)
Definition is_minimum (x : pynum) (l : list float) : Prop :=
  (∃ f, f ∈ l ∧ x = PyFloat f) ∧ ∀ f, f ∈ l → num_lt (PyFloat f) x = false.

(** [x] is a greatest element of [l] for Python's [<]. *)
Definition is_maximum (x : pynum) (l : list float) : Prop :=
  (∃ f, f ∈ l ∧ x = PyFloat f) ∧ ∀ f, f ∈ l → num_lt x (PyFloat f) = false.

(** The time range as the specification words it. *)
Definition time_range_as_specified (self : parser) : Prop :=
  ∃ s, get_summary_stats self = Return (Stats s)
       ∧ (start_times (events self) ≠ [] →
          is_minimum (tr_start (time_range s)) (start_times (events self)))
       ∧ (end_times (events self) ≠ [] →
          is_maximum (tr_end (time_range s)) (end_times (events self)))
       ∧ (start_times (events self) = [] →
          time_range s = mk_time_range (PyFloat infinity) (PyInt 0)).

(** [x] is the least of [dflt] and the elements of [l] for Python's [<]:
    it is one of them and none of them is below it. *)
Definition least_of (dflt x : pynum) (l : list float) : Prop :=
  (x = dflt ∨ ∃ f, f ∈ l ∧ x = PyFloat f)
  ∧ num_lt dflt x = false
  ∧ ∀ f, f ∈ l → num_lt (PyFloat f) x = false.

(** [x] is the greatest of [dflt] and the elements of [l] for Python's [<]:
    it is one of them and none of them is above it. *)
Definition greatest_of (dflt x : pynum) (l : list float) : Prop :=
  (x = dflt ∨ ∃ f, f ∈ l ∧ x = PyFloat f)
  ∧ num_lt x dflt = false
  ∧ ∀ f, f ∈ l → num_lt x (PyFloat f) = false.

(** The numbers the time range compares: the literal [0] and the floats. *)
Definition zero_or_float (a : pynum) : Prop := a = PyInt 0 ∨ ∃ f, a = PyFloat f.

(** The IEEE-754 datum of such a number. *)
Definition spec_float_of (a : pynum) : spec_float :=
  match a with
  | PyInt _ => S754_zero false
  | PyFloat f => Prim2SF f
  end.

(** The counting [get_summary_stats] performs for one label group on one
    event. *)
Definition tally (group : string) (counts : gmap string nat) (ev : event)
  : gmap string nat :=
  match labels_get ev group with
  | Some v => if str_truthy v then count_up counts v else counts
  | None => counts
  end.

(** The team [get_summary_stats] collects from one event, if any. *)
Definition collected_team (ev : event) : option string :=
  match labels_get ev "Team" with
  | Some team =>
      if str_truthy team && bool_decide (team ≠ "None") then Some team else None
  | None => None
  end.

(** What a label child contributes: its group and text, when it has both
    sub-elements. *)
Definition label_pair (label : Element) : option (option string * option string) :=
  match find label "group", find label "text" with
  | Some group_elem, Some text_elem => Some (text group_elem, text text_elem)
  | _, _ => None
  end.

(** [sub] occurs in [s]. *)
Definition is_substring (sub s : string) : Prop := ∃ p r, s = p +:+ sub +:+ r.

(** A float that is not a number. *)
Definition is_nan_num (x : pynum) : bool :=
  match x with
  | PyFloat f => is_nan f
  | PyInt _ => false
  end.

(** ** Sample documents *)

Definition leaf (name value : string) : Element := Elem name (Some value) [].

Definition label (group value : string) : Element :=
  Elem "label" None [leaf "group" group; leaf "text" value].

Definition container (instances : list Element) : Element :=
  Elem "ALL_INSTANCES" None instances.

Definition document (instances : list Element) : Element :=
  Elem "file" None [container instances].

(** The three instances of the end-to-end scenario. *)
Definition sample_instances : list Element :=
  [ Elem "instance" None
      [leaf "ID" "1"; leaf "start" "1.5"; leaf "end" "2.5";
       leaf "code" "12.John Smith(5) - Goals";
       label "Action" "Goals"; label "Team" "A"; label "Half" "1"];
    Elem "instance" None
      [label "Action" "Passes accurate"; label "Team" "A"; label "Half" "1"];
    Elem "instance" None
      [label "Action" "Goals"; label "Team" "B"; label "Half" "2"] ].

Definition sample_match : Element := document sample_instances.

(** A document without the container. *)
Definition no_container : Element :=
  Elem "file" None [Elem "SORT_INFO" None []].

(** An instance whose [ID] is not a number. *)
Definition abc_instance : Element := Elem "instance" None [leaf "ID" "abc"].

Definition bad_id : Element := document [abc_instance].

(** An instance with a start and no end. *)
Definition start_only : Element :=
  document [Elem "instance" None [leaf "ID" "7"; leaf "start" "12.5"]].

(** An instance whose Team label has an empty [text] element. *)
Definition empty_team : Element :=
  document
    [Elem "instance" None
       [Elem "label" None [leaf "group" "Team"; Elem "text" None []]]].

(** An instance without labels. *)
Definition bare_instance : Element := document [Elem "instance" None []].

(** Two instances of a real match, one per team. *)
Definition two_teams : Element :=
  document
    [ Elem "instance" None
        [leaf "ID" "1"; leaf "start" "3"; leaf "end" "4";
         label "Team" "Bnei Yehuda Tel-Aviv U19"; label "Half" "1"];
      Elem "instance" None
        [leaf "ID" "2"; leaf "start" "5"; leaf "end" "9";
         label "Team" "Hapoel Kfar Shalem"; label "Half" "1"] ].

(** The parser after loading a document and extracting its events. *)
Definition extracted (doc : Element) : parser := snd (extract_events (loaded doc)).

(** A start and end on the first instance, an end alone on the second. *)
Definition late_end : Element :=
  document
    [ Elem "instance" None [leaf "ID" "1"; leaf "start" "1.5"; leaf "end" "2.5"];
      Elem "instance" None [leaf "ID" "2"; leaf "end" "5"] ].

(** Times that are not numbers on the first instance. *)
Definition nan_times : Element :=
  document
    [ Elem "instance" None [leaf "start" "nan"; leaf "end" "NaN"];
      Elem "instance" None [leaf "start" "3"; leaf "end" "4"] ].

(** Two labels of the same group on one instance. *)
Definition twice_labelled : Element :=
  Elem "instance" None
    [label "Team" "A"; Elem "label" None [leaf "group" "Team"]; label "Team" "B";
     label "Half" "1"].

(** A second instance that does not parse, between two that do. *)
Definition bad_second_instances : list Element :=
  [ Elem "instance" None [leaf "ID" "1"];
    Elem "instance" None [leaf "ID" "2"; leaf "start" "soon"];
    Elem "instance" None [leaf "ID" "3"] ].

Definition bad_second : Element := document bad_second_instances.

(** * Properties *)

(** ** The result monad *)

Lemma bind_Return {A B} (m : result A) (f : A → result B) (b : B) :
  m ≫= f = Return b ↔ ∃ a, m = Return a ∧ f a = Return b.
Proof.
  destruct m as [a|e]; simpl; split.
  - intros H. exists a. auto.
  - intros (a' & [= <-] & H). exact H.
  - discriminate.
  - intros (a' & [=] & _).
Qed.

Lemma bind_Raise {A B} (m : result A) (f : A → result B) (e : exn) :
  m ≫= f = Raise e ↔ m = Raise e ∨ ∃ a, m = Return a ∧ f a = Raise e.
Proof.
  destruct m as [a|e']; simpl; split.
  - intros H. right. exists a. auto.
  - intros [[=]|(a' & [= <-] & H)]. exact H.
  - intros [= <-]. now left.
  - intros [[= <-]|(a' & [=] & _)]. reflexivity.
Qed.

Lemma returns_or_raises {A} (m : result A) : returns m ∨ raises m.
Proof. destruct m as [a|e]; [left; exists a | right; exists e]; reflexivity. Qed.

Lemma raises_not_returns {A} (m : result A) : raises m → ¬ returns m.
Proof. intros [e ->] [a [=]]. Qed.

(** ** Summary of no events *)

(** C1 (as the specification states it, refuted): on the empty event
    sequence [get_summary_stats] does not return the fully-zeroed
    structure. *)
Lemma summary_empty_not_zeroed :
  get_summary_stats new_parser ≠ Return (Stats zeroed_stats).
Proof. discriminate. Qed.

(** C1 (amended): on the empty event sequence [get_summary_stats] returns
    the empty dictionary, whatever document is loaded. *)
Theorem summary_empty_is_empty_dict (r : option Element) :
  get_summary_stats (mk_parser r []) = Return EmptyDict.
Proof. reflexivity. Qed.

(** ** The Half filter *)

Lemma filter_idempotent {A} (p : A → bool) (l : list A) :
  List.filter p (List.filter p l) = List.filter p l.
Proof.
  induction l as [|x l IH]; simpl; [reflexivity|].
  destruct (p x) eqn:Hp; simpl; [rewrite Hp, IH|]; auto.
Qed.

Lemma filter_all {A} (l : list A) : List.filter (fun _ => true) l = l.
Proof. induction l as [|x l IH]; simpl; congruence. Qed.

Lemma half_filter_twice (r : option Element) (E : list event) (half : string) :
  get_events_by_half (mk_parser r (get_events_by_half (mk_parser r E) half)) half
  = get_events_by_half (mk_parser r E) half.
Proof. unfold get_events_by_half; simpl. apply filter_idempotent. Qed.

(** C9: filtering an event sequence by Half = "1" twice gives the same
    sequence as filtering it once. *)
Theorem half_filter_idempotent (r : option Element) (E : list event) :
  get_events_by_half (mk_parser r (get_events_by_half (mk_parser r E) "1")) "1"
  = get_events_by_half (mk_parser r E) "1".
Proof. apply half_filter_twice. Qed.

(** ** Extraction without a container *)

(** C4 (as the specification states it, refuted): for a document without
    the container [extract_events] does not return an empty sequence. *)
Lemma extract_no_container_not_empty_list :
  fst (extract_events (loaded no_container)) ≠ Return (Some []).
Proof. vm_compute. discriminate. Qed.

(** C4 (amended): when the loaded document has no ALL_INSTANCES node,
    [extract_events] raises nothing, returns [None] and leaves the parser,
    its events included, as it was. *)
Theorem extract_no_container (self : parser) (r : Element) :
  root self = Some r →
  find_descendant r "ALL_INSTANCES" = None →
  extract_events self = (Return None, self).
Proof.
  intros Hr Hc. unfold extract_events. rewrite Hr, Hc.
  destruct (negb (elem_truthy r)); reflexivity.
Qed.

Lemma extract_no_container_witness :
  extract_events (loaded no_container) = (Return None, loaded no_container)
  ∧ events (snd (extract_events (loaded no_container))) = [].
Proof.
  assert (H : extract_events (loaded no_container) = (Return None, loaded no_container)).
  { apply (extract_no_container (loaded no_container) no_container); reflexivity. }
  split; [exact H | rewrite H; reflexivity].
Defined.

(** ** The Team filter *)

Lemma comprehension_filter {A} (cond : A → result bool) (p : A → bool) (l : list A) :
  (∀ x, x ∈ l → cond x = Return (p x)) →
  comprehension cond l = Return (List.filter p l).
Proof.
  induction l as [|x l IH]; intros H; simpl; [reflexivity|].
  rewrite (H x) by apply list_elem_of_here. simpl.
  rewrite IH by (intros y Hy; apply H; now apply list_elem_of_further). simpl.
  destruct (p x); reflexivity.
Qed.

Lemma comprehension_raises {A} (cond : A → result bool) (l : list A) (x : A) (e : exn) :
  x ∈ l → cond x = Raise e → raises (comprehension cond l).
Proof.
  intros Hx He. induction l as [|y l IH]; [inversion Hx|].
  simpl. destruct (cond y) as [b|e'] eqn:Hy; [|eexists; reflexivity].
  simpl. destruct IH as [e' ->]; [|eexists; reflexivity].
  inversion Hx; subst; [congruence | assumption].
Qed.

Lemma str_contains_empty_sub (s : string) : str_contains "" s = true.
Proof. destruct s; reflexivity. Qed.

Lemma str_contains_in_empty (sub : string) : str_contains sub "" = true ↔ sub = "".
Proof. destruct sub; simpl; split; (reflexivity || discriminate). Qed.

Lemma team_test_present (query : string) (ev : event) :
  labels ev !! Some "Team" ≠ Some None →
  py_in query (labels_get_default ev "Team" "")
  = Return (team_or_empty_contains query ev).
Proof.
  unfold labels_get_default, team_or_empty_contains, labels_get.
  destruct (labels ev !! Some "Team") as [[t|]|]; simpl; congruence.
Qed.

Lemma team_test_empty_value (query : string) (ev : event) :
  labels ev !! Some "Team" = Some None →
  py_in query (labels_get_default ev "Team" "") = Raise TypeError.
Proof. unfold labels_get_default. intros ->. reflexivity. Qed.

(** An event whose Team label has no value makes the Team filter raise. *)
Lemma team_filter_raises (self : parser) (query : string) (ev : event) :
  ev ∈ events self → labels ev !! Some "Team" = Some None →
  raises (get_events_by_team self query).
Proof.
  intros Hev HT. unfold get_events_by_team.
  eapply comprehension_raises; [exact Hev|]. now apply team_test_empty_value.
Qed.

(** With every Team value present, the empty query returns every event. *)
Lemma team_filter_empty_query_all (self : parser) :
  team_values_present (events self) →
  get_events_by_team self "" = Return (events self).
Proof.
  intros H. unfold get_events_by_team.
  rewrite (comprehension_filter _ (fun _ => true)).
  - f_equal. apply filter_all.
  - intros ev Hev. rewrite team_test_present by now apply H.
    unfold team_or_empty_contains. now rewrite str_contains_empty_sub.
Qed.

(** C3 (as the specification states it, refuted): an event without a Team
    label is returned for the empty query, although it has no Team label
    that contains it. *)
Lemma team_filter_not_as_specified :
  ¬ team_filter_as_specified (extracted bare_instance) "".
Proof. unfold team_filter_as_specified. vm_compute. discriminate. Qed.

(** C3 (amended): when no event has a Team label with an empty value, the
    Team filter returns exactly the events whose Team label contains the
    query as a substring, an absent Team label counting as the empty
    string; in particular an event labelled "Bnei Yehuda Tel-Aviv U19" is
    returned for the query "Bnei Yehuda". *)
Theorem team_filter_substring (self : parser) :
  team_values_present (events self) →
  (∀ query, get_events_by_team self query
            = Return (List.filter (team_or_empty_contains query) (events self)))
  ∧ (∀ ev, ev ∈ events self →
           labels ev !! Some "Team" = Some (Some "Bnei Yehuda Tel-Aviv U19") →
           ∃ l, get_events_by_team self "Bnei Yehuda" = Return l ∧ ev ∈ l).
Proof.
  intros H.
  assert (Hq : ∀ query, get_events_by_team self query
            = Return (List.filter (team_or_empty_contains query) (events self))).
  { intros query. unfold get_events_by_team. apply comprehension_filter.
    intros ev Hev. apply team_test_present. now apply H. }
  split; [exact Hq|].
  intros ev Hev HT. eexists. split; [apply Hq|].
  apply list_elem_of_In, filter_In. split; [now apply list_elem_of_In|].
  unfold team_or_empty_contains, labels_get. rewrite HT. reflexivity.
Qed.

Lemma team_filter_substring_witness :
  (∀ query, get_events_by_team (extracted two_teams) query
            = Return (List.filter (team_or_empty_contains query)
                        (events (extracted two_teams))))
  ∧ (∀ ev, ev ∈ events (extracted two_teams) →
           labels ev !! Some "Team" = Some (Some "Bnei Yehuda Tel-Aviv U19") →
           ∃ l, get_events_by_team (extracted two_teams) "Bnei Yehuda" = Return l
                ∧ ev ∈ l).
Proof.
  apply (team_filter_substring (extracted two_teams)).
  intros ev Hev. apply list_elem_of_In in Hev. vm_compute in Hev.
  destruct Hev as [<-|[<-|[]]]; vm_compute; discriminate.
Defined.

(** C10 (the code at the failing input): for the document whose Team label
    has an empty [text] element, extraction succeeds and the Team filter
    with the empty query raises [TypeError] instead of returning the
    event. *)
Theorem team_filter_empty_query_raises :
  (∃ ev, fst (extract_events (loaded empty_team)) = Return (Some [ev])
         ∧ labels ev !! Some "Team" = Some None)
  ∧ get_events_by_team (extracted empty_team) "" = Raise TypeError.
Proof.
  split; [|vm_compute; reflexivity].
  eexists. split; vm_compute; reflexivity.
Qed.

(** ** Totality of the query layer *)

(** C8 (the code at the failing inputs): on events the extractor produced,
    [get_summary_stats] raises [KeyError] for an instance with a start and
    no end, [get_events_by_team] raises [TypeError] for a Team label with an
    empty value, and the player-name decomposition raises [IndexError] for
    a code whose only "." follows the " - ". *)
Theorem query_layer_raises :
  (is_Some (root (extracted start_only))
   ∧ length (events (extracted start_only)) = 1
   ∧ get_summary_stats (extracted start_only) = Raise KeyError)
  ∧ (length (events (extracted empty_team)) = 1
     ∧ get_events_by_team (extracted empty_team) "Bnei Yehuda" = Raise TypeError)
  ∧ decompose_player_code "John Smith(5) - Pass. accurate" = Raise IndexError.
Proof.
  repeat split; try (vm_compute; reflexivity).
  eexists; vm_compute; reflexivity.
Qed.

(** ** Extraction *)

Lemma str_to_int_raise (s : string) (e : exn) :
  str_to_int s = Raise e → e = ValueError.
Proof. unfold str_to_int. intros H. repeat case_match; congruence. Qed.

Lemma str_to_float_raise (s : string) (e : exn) :
  str_to_float s = Raise e → e = ValueError.
Proof. unfold str_to_float. intros H. repeat case_match; congruence. Qed.

Lemma py_int_raise (t : option string) (e : exn) :
  py_int t = Raise e → (e = ValueError ∧ is_Some t) ∨ (e = TypeError ∧ t = None).
Proof.
  destruct t as [s|]; simpl; intros H.
  - left. split; [now apply str_to_int_raise in H | now exists s].
  - right. split; congruence.
Qed.

Lemma py_float_raise (t : option string) (e : exn) :
  py_float t = Raise e → (e = ValueError ∧ is_Some t) ∨ (e = TypeError ∧ t = None).
Proof.
  destruct t as [s|]; simpl; intros H.
  - left. split; [now apply str_to_float_raise in H | now exists s].
  - right. split; congruence.
Qed.

Lemma parse_field_returns {A} (conv : option string → result A) (child : option Element) :
  (∀ el, child = Some el → returns (conv (text el))) →
  returns (parse_field conv child).
Proof.
  destruct child as [el|]; simpl; intros H; [|eexists; reflexivity].
  destruct (H el eq_refl) as [v ->]. eexists; reflexivity.
Qed.

Lemma parse_field_raise {A} (conv : option string → result A) (child : option Element)
    (e : exn) :
  parse_field conv child = Raise e ↔ ∃ el, child = Some el ∧ conv (text el) = Raise e.
Proof.
  destruct child as [el|]; simpl; split.
  - destruct (conv (text el)) eqn:Hc; simpl; [discriminate|].
    intros [= <-]. eauto.
  - intros (el' & [= <-] & ->). reflexivity.
  - discriminate.
  - intros (el' & [=] & _).
Qed.

(** [_parse_instance] returns an event when the numeric fields convert. *)
Lemma parse_instance_returns (instance : Element) :
  numeric_fields_ok instance → returns (_parse_instance instance).
Proof.
  intros (Hid & Hst & Hen). unfold _parse_instance.
  destruct (parse_field_returns py_int _ Hid) as [i ->].
  destruct (parse_field_returns py_float _ Hst) as [s ->].
  destruct (parse_field_returns py_float _ Hen) as [n ->].
  eexists; reflexivity.
Qed.

(** [_parse_instance] raises exactly the exception of the first numeric
    field that does not convert. *)
Lemma parse_instance_raise (instance : Element) (e : exn) :
  _parse_instance instance = Raise e →
  ∃ name el, name ∈ ["ID"; "start"; "end"] ∧ find instance name = Some el
             ∧ ((e = ValueError ∧ is_Some (text el))
                ∨ (e = TypeError ∧ text el = None)).
Proof.
  unfold _parse_instance. intros H.
  apply bind_Raise in H as [H|(i & _ & H)].
  { apply parse_field_raise in H as (el & Hel & H).
    exists "ID", el. split; [set_solver|]. split; [exact Hel|]. now apply py_int_raise. }
  apply bind_Raise in H as [H|(s & _ & H)].
  { apply parse_field_raise in H as (el & Hel & H).
    exists "start", el. split; [set_solver|]. split; [exact Hel|]. now apply py_float_raise. }
  apply bind_Raise in H as [H|(n & _ & H)]; [|discriminate].
  apply parse_field_raise in H as (el & Hel & H).
  exists "end", el. split; [set_solver|]. split; [exact Hel|]. now apply py_float_raise.
Qed.

Lemma bad_field_raises (instance : Element) :
  bad_numeric_field instance → raises (_parse_instance instance).
Proof.
  unfold _parse_instance.
  intros [(el & Hel & e & He)|[(el & Hel & e & He)|(el & Hel & e & He)]].
  - exists e. rewrite Hel. simpl. rewrite He. reflexivity.
  - destruct (parse_field py_int (find instance "ID")) as [i|e']; [|eexists; reflexivity].
    exists e. rewrite Hel. simpl. rewrite He. reflexivity.
  - destruct (parse_field py_int (find instance "ID")) as [i|e']; [|eexists; reflexivity].
    destruct (parse_field py_float (find instance "start")) as [s|e']; [|eexists; reflexivity].
    exists e. rewrite Hel. simpl. rewrite He. reflexivity.
Qed.

Lemma non_numeric_is_bad (instance : Element) :
  non_numeric_field instance → bad_numeric_field instance.
Proof.
  intros [(el & t & Hel & Ht & H)|[(el & t & Hel & Ht & H)|(el & t & Hel & Ht & H)]];
    [left | right; left | right; right];
    exists el; (split; [exact Hel|]); exists ValueError; rewrite Ht; exact H.
Qed.

(** The event dictionary always has the [labels] key, so it is true. *)
Lemma event_truthy_true (ev : event) : event_truthy ev = true.
Proof. unfold event_truthy, event_len. rewrite Nat.add_1_r. reflexivity. Qed.

Lemma parse_instance_labels (instance : Element) (ev : event) :
  _parse_instance instance = Return ev →
  labels ev = fold_left add_label (findall instance "label") ∅
  ∧ code ev = text <$> find instance "code".
Proof.
  unfold _parse_instance. intros H.
  apply bind_Return in H as (i & _ & H).
  apply bind_Return in H as (s & _ & H).
  apply bind_Return in H as (n & _ & H).
  injection H as <-. split; reflexivity.
Qed.

(** The loop appends one event per instance, in order, when every instance
    parses. *)
Lemma extract_loop_returns (instances : list Element) (acc : list event) :
  (∀ instance, instance ∈ instances → returns (_parse_instance instance)) →
  ∃ evs, extract_loop instances acc = (Return (), (acc ++ evs)%list)
         ∧ Forall2 (fun instance ev => _parse_instance instance = Return ev)
             instances evs.
Proof.
  revert acc. induction instances as [|x l IH]; intros acc H; simpl.
  - exists []. rewrite app_nil_r. split; [reflexivity | constructor].
  - destruct (H x) as [ev Hev]; [apply list_elem_of_here|]. rewrite Hev.
    rewrite event_truthy_true.
    destruct (IH (acc ++ [ev])%list) as (evs & Hl & HF).
    { intros y Hy. apply H. now apply list_elem_of_further. }
    exists (ev :: evs). rewrite Hl, <- app_assoc. split; [reflexivity|].
    constructor; assumption.
Qed.

(** The loop raises the exception of the first instance that does not
    parse. *)
Lemma extract_loop_raise (instances : list Element) (acc : list event) (e : exn) :
  fst (extract_loop instances acc) = Raise e →
  ∃ instance, instance ∈ instances ∧ _parse_instance instance = Raise e.
Proof.
  revert acc. induction instances as [|x l IH]; intros acc; simpl; [discriminate|].
  destruct (_parse_instance x) as [ev|e'] eqn:Hx.
  - intros H. destruct (IH _ H) as (y & Hy & He).
    exists y. split; [now apply list_elem_of_further | exact He].
  - simpl. intros [= <-]. exists x. split; [apply list_elem_of_here | exact Hx].
Qed.

Lemma extract_loop_raises (instances : list Element) (acc : list event)
    (instance : Element) :
  instance ∈ instances → raises (_parse_instance instance) →
  raises (fst (extract_loop instances acc)).
Proof.
  revert acc. induction instances as [|x l IH]; intros acc Hin Hr; [inversion Hin|].
  simpl. destruct (_parse_instance x) as [ev|e'] eqn:Hx; [|eexists; reflexivity].
  apply IH; [|exact Hr].
  inversion Hin; subst; [|assumption].
  destruct Hr as [e He]. congruence.
Qed.

(** A root that has the container below it has children. *)
Lemma container_root_truthy (r c : Element) (name : string) :
  find_descendant r name = Some c → elem_truthy r = true.
Proof.
  unfold find_descendant, elem_truthy. destruct r as [t x [|c' cs]]; simpl.
  - discriminate.
  - reflexivity.
Qed.

(** [extract_events] on a document that has the container. *)
Lemma extract_events_container (self : parser) (r c : Element) :
  root self = Some r → find_descendant r "ALL_INSTANCES" = Some c →
  extract_events self
  = (fst (extract_loop (findall c "instance") []) ≫= (fun _ =>
       mret (Some (snd (extract_loop (findall c "instance") [])))),
     mk_parser (Some r) (snd (extract_loop (findall c "instance") []))).
Proof.
  intros Hr Hc. unfold extract_events. rewrite Hr, Hc.
  rewrite (container_root_truthy _ _ _ Hc). simpl.
  destruct (extract_loop (findall c "instance") []) as [res evs]. reflexivity.
Qed.

(** C5: when an instance of the container has an ID, start or end child
    whose text is not a number, [extract_events] raises: no event sequence
    is returned, nothing is skipped or replaced by a placeholder.  The
    exception is the one of the numeric conversion: [ValueError], or
    [TypeError] when an earlier numeric child has no text at all. *)
Theorem non_numeric_field_fails (self : parser) (r c instance : Element) :
  root self = Some r →
  find_descendant r "ALL_INSTANCES" = Some c →
  instance ∈ findall c "instance" →
  non_numeric_field instance →
  ∃ e, fst (extract_events self) = Raise e
       ∧ (e = ValueError ∨ e = TypeError)
       ∧ ((∀ i, i ∈ findall c "instance" → numeric_texts_present i) →
          e = ValueError).
Proof.
  intros Hr Hc Hin Hbad.
  rewrite (extract_events_container self r c Hr Hc). simpl.
  destruct (extract_loop_raises (findall c "instance") [] instance Hin) as [e He].
  { now apply bad_field_raises, non_numeric_is_bad. }
  exists e. rewrite He. split; [reflexivity|].
  apply extract_loop_raise in He as (i & Hi & He).
  apply parse_instance_raise in He as (name & el & Hname & Hel & Hkind).
  split.
  - destruct Hkind as [[-> _]|[-> _]]; auto.
  - intros Hall. destruct Hkind as [[-> _]|[_ Hnone]]; [reflexivity|].
    destruct (Hall i Hi name el Hname Hel) as [t Ht]. congruence.
Qed.

Lemma non_numeric_field_fails_witness :
  ∃ e, fst (extract_events (loaded bad_id)) = Raise e
       ∧ (e = ValueError ∨ e = TypeError)
       ∧ ((∀ i, i ∈ findall (container [abc_instance]) "instance" →
                numeric_texts_present i) →
          e = ValueError).
Proof.
  apply (non_numeric_field_fails (loaded bad_id) bad_id
           (container [abc_instance]) abc_instance).
  - reflexivity.
  - reflexivity.
  - apply list_elem_of_here.
  - left. exists (leaf "ID" "abc"), "abc". repeat split; reflexivity.
Defined.

(** The instance of the specification's example: an ID of "abc" makes the
    extraction raise [ValueError]. *)
Lemma bad_id_raises : fst (extract_events (loaded bad_id)) = Raise ValueError.
Proof. vm_compute. reflexivity. Qed.

(** C7: for a well-formed document (it has the container and the numeric
    fields of its instances are numbers) [extract_events] returns, and
    stores, exactly one event per instance element of the container, the
    i-th event being the one parsed from the i-th instance; an instance
    without label children gives an event with empty labels. *)
Theorem extract_one_event_per_instance (self : parser) (doc c : Element) :
  root self = Some doc →
  well_formed doc c →
  ∃ evs, extract_events self = (Return (Some evs), mk_parser (Some doc) evs)
         ∧ length evs = length (findall c "instance")
         ∧ ∀ i instance, findall c "instance" !! i = Some instance →
             ∃ ev, evs !! i = Some ev
                   ∧ _parse_instance instance = Return ev
                   ∧ (findall instance "label" = [] → labels ev = ∅).
Proof.
  intros Hr [Hc Hok].
  rewrite (extract_events_container self doc c Hr Hc).
  destruct (extract_loop_returns (findall c "instance") []) as (evs & Hl & HF).
  { intros i Hi. now apply parse_instance_returns, Hok. }
  simpl in Hl. rewrite Hl. simpl. exists evs. split; [reflexivity|].
  split; [symmetry; eapply Forall2_length; exact HF|].
  intros i instance Hi.
  destruct (Forall2_lookup_l _ _ _ _ _ HF Hi) as (ev & Hev & Hp).
  exists ev. split; [exact Hev|]. split; [exact Hp|].
  intros Hnol. apply parse_instance_labels in Hp as [-> _]. rewrite Hnol. reflexivity.
Qed.

Lemma extract_one_event_per_instance_witness :
  ∃ evs, extract_events (loaded sample_match)
         = (Return (Some evs), mk_parser (Some sample_match) evs)
         ∧ length evs = 3.
Proof.
  destruct (extract_one_event_per_instance (loaded sample_match) sample_match
              (container sample_instances)) as (evs & He & Hlen & _).
  - reflexivity.
  - split; [reflexivity|].
    intros instance Hin. apply list_elem_of_In in Hin. vm_compute in Hin.
    destruct Hin as [<-|[<-|[<-|[]]]];
      (repeat split; intros el [= <-]; eexists; vm_compute; reflexivity).
  - exists evs. split; [exact He | exact Hlen].
Defined.

(** ** Strings: [find] and [split] *)

Lemma prefix_append (sub s : string) :
  String.prefix sub s = true → s = sub +:+ str_drop (String.length sub) s.
Proof.
  revert s. induction sub as [|c sub IH]; intros s; simpl.
  - destruct s; reflexivity.
  - destruct s as [|c' s]; simpl; [discriminate|].
    destruct (ascii_dec c c') as [->|]; [|discriminate].
    intros H.
    change (String c' s = String c' (sub +:+ str_drop (String.length sub) s)).
    f_equal. now apply IH.
Qed.

Lemma str_find_nil (sub : string) :
  str_find "" sub = if String.prefix sub "" then Some 0 else None.
Proof. reflexivity. Qed.

Lemma str_find_cons (c : ascii) (s sub : string) :
  str_find (String c s) sub
  = if String.prefix sub (String c s) then Some 0 else S <$> str_find s sub.
Proof. reflexivity. Qed.

(** [str_find] returns an index at which [sub] occurs ... *)
Lemma str_find_occurs (s sub : string) (i : nat) :
  str_find s sub = Some i →
  s = str_take i s +:+ sub +:+ str_drop (i + String.length sub) s.
Proof.
  revert i. induction s as [|c s IH]; intros i.
  - rewrite str_find_nil. destruct (String.prefix sub "") eqn:Hp; [|discriminate].
    intros [= <-]. now apply prefix_append in Hp.
  - rewrite str_find_cons. destruct (String.prefix sub (String c s)) eqn:Hp.
    + intros [= <-]. now apply prefix_append in Hp.
    + destruct (str_find s sub) as [j|] eqn:Hj; [|discriminate].
      simpl. intros [= <-].
      change (String c s
              = String c (str_take j s +:+ sub +:+ str_drop (j + String.length sub) s)).
      f_equal. now apply IH.
Qed.

(** ... and no occurrence starts before it. *)
Lemma str_find_first (s sub : string) (i j : nat) :
  str_find s sub = Some i → j < i → String.prefix sub (str_drop j s) = false.
Proof.
  revert i j. induction s as [|c s IH]; intros i j.
  - rewrite str_find_nil. destruct (String.prefix sub ""); [|discriminate].
    intros [= <-]. lia.
  - rewrite str_find_cons.
    destruct (String.prefix sub (String c s)) eqn:Hp; [intros [= <-]; lia|].
    destruct (str_find s sub) as [k|] eqn:Hk; [|discriminate].
    simpl. intros [= <-] Hj. destruct j as [|j]; [exact Hp|].
    simpl. apply (IH k); [reflexivity | lia].
Qed.

(** Without a result, [sub] occurs nowhere. *)
Lemma str_find_none (s sub : string) (j : nat) :
  str_find s sub = None → String.prefix sub (str_drop j s) = false.
Proof.
  revert j. induction s as [|c s IH]; intros j.
  - rewrite str_find_nil. destruct (String.prefix sub "") eqn:Hp; [discriminate|].
    intros _. destruct j; exact Hp.
  - rewrite str_find_cons.
    destruct (String.prefix sub (String c s)) eqn:Hp; [discriminate|].
    destruct (str_find s sub) as [k|] eqn:Hk; [discriminate|].
    intros _. destruct j as [|j]; [exact Hp|]. simpl. now apply IH.
Qed.

Lemma str_contains_find (sub s : string) :
  str_contains sub s = true ↔ is_Some (str_find s sub).
Proof. unfold str_contains. apply bool_decide_eq_true. Qed.

(** [s.split(sep)[0]] is the part before the first [sep]. *)
Lemma split_first (s sep : string) :
  sep ≠ "" →
  (l ← str_split s sep None; py_index l 0) = Return (before_first sep s).
Proof.
  intros Hsep. unfold str_split, before_first.
  destruct sep as [|c sep]; [congruence|]. simpl.
  destruct (str_find s (String c sep)); reflexivity.
Qed.

(** [s.split(sep, 1)[1]] is the part after the first [sep]; without a
    [sep] the index is out of range. *)
Lemma split_once_second (s sep : string) :
  sep ≠ "" →
  (l ← str_split s sep (Some 1); py_index l 1)
  = match after_first sep s with
    | Some x => Return x
    | None => Raise IndexError
    end.
Proof.
  intros Hsep. unfold str_split, after_first.
  destruct sep as [|c sep]; [congruence|]. simpl.
  destruct (str_find s (String c sep)) as [i|]; [|reflexivity].
  simpl. destruct (String.length s); reflexivity.
Qed.

(** ** Player names *)

(** What the decomposition does on every code. *)
Lemma decompose_player_code_cases (code : string) :
  decompose_player_code code
  = if has_markers code then
      match name_segment code with
      | Some seg =>
          Return (if str_truthy seg && bool_decide (seg ≠ "None")
                  then Some seg else None)
      | None => Raise IndexError
      end
    else Return None.
Proof.
  unfold decompose_player_code, has_markers, name_segment.
  destruct (str_contains " - " code && str_contains "." code && str_contains "(" code);
    [|reflexivity].
  change (str_split code " - " None ≫= _)
    with ((l ← str_split code " - " None; py_index l 0) ≫= fun player_part =>
          after_dot ← (l ← str_split player_part "." (Some 1); py_index l 1);
          before_paren ← (l ← str_split after_dot "(" None; py_index l 0);
          let player_name := str_strip before_paren in
          if str_truthy player_name && bool_decide (player_name ≠ "None")
          then mret (Some player_name)
          else mret None).
  - rewrite split_first by discriminate. cbn [mbind result_bind].
    rewrite split_once_second by discriminate.
    destruct (after_first "." (before_first " - " code)) as [x|]; [|reflexivity].
    cbn [mbind result_bind fmap option_fmap option_map].
    rewrite split_first by discriminate. cbn [mbind result_bind].
    destruct (str_truthy _ && _); reflexivity.
Qed.

(** C2 (as the specification states it, refuted): a code with the three
    markers whose middle segment is "None" yields no name. *)
Lemma decompose_not_as_specified :
  ¬ decomposes_as_specified "7.None(0) - Goals".
Proof.
  unfold decomposes_as_specified. vm_compute.
  intros (seg & _ & H). discriminate.
Qed.

(** C2 (amended): for a code with the three markers whose part before the
    first " - " contains the ".", the decomposition yields the trimmed
    segment (before the first " - ", after the first ".", before the first
    "("), unless that segment is empty or "None", when it yields no name;
    "12.John Smith(5) - Passes accurate" yields "John Smith"; a code that
    lacks one of the markers yields no name. *)
Theorem decompose_player_code_spec (code : string) :
  (has_markers code = true →
   ∀ seg, name_segment code = Some seg →
     decompose_player_code code
     = Return (if str_truthy seg && bool_decide (seg ≠ "None")
               then Some seg else None))
  ∧ (has_markers code = false → decompose_player_code code = Return None)
  ∧ decompose_player_code "12.John Smith(5) - Passes accurate"
    = Return (Some "John Smith").
Proof.
  split; [|split].
  - intros Hm seg Hseg. rewrite decompose_player_code_cases, Hm, Hseg. reflexivity.
  - intros Hm. rewrite decompose_player_code_cases, Hm. reflexivity.
  - vm_compute. reflexivity.
Qed.

Lemma decompose_player_code_spec_witness :
  decompose_player_code "3.Dan Biton (10) - Shots"
  = Return (Some "Dan Biton")
  ∧ decompose_player_code "Passes accurate" = Return None.
Proof.
  split.
  - apply (proj1 (decompose_player_code_spec "3.Dan Biton (10) - Shots")
             eq_refl "Dan Biton"); vm_compute; reflexivity.
  - apply (proj1 (proj2 (decompose_player_code_spec "Passes accurate"))).
    vm_compute; reflexivity.
Defined.

(** ** Order of the numbers compared *)

Lemma SFltb_trans (x y z : spec_float) :
  SFltb x y = true → SFltb y z = true → SFltb x z = true.
Proof.
  unfold SFltb, SFcompare.
  destruct x as [sx|sx| |sx mx ex], y as [sy|sy| |sy my ey], z as [sz|sz| |sz mz ez];
    try destruct sx; try destruct sy; try destruct sz; try (intros; congruence);
    change (Pos.compare_cont Eq) with Pos.compare;
    repeat match goal with
           | |- context [Z.compare ?a ?b] => destruct (Z.compare_spec a b)
           | |- context [Pos.compare ?a ?b] => destruct (Pos.compare_spec a b)
           end; simpl; try (intros; congruence); try lia.
Qed.

Lemma SFltb_irrefl (x : spec_float) : SFltb x x = false.
Proof.
  unfold SFltb, SFcompare.
  destruct x as [s|s| |s m e]; try destruct s; try reflexivity;
    rewrite Z.compare_refl; change (Pos.compare_cont Eq) with Pos.compare;
    rewrite Pos.compare_refl; reflexivity.
Qed.

(** Comparing the integer 0 with a float only looks at the float's sign. *)
Lemma int_cmp_float_zero (f : float) :
  int_cmp_float 0 f
  = match Prim2SF f with
    | S754_nan => None
    | S754_infinity s => Some (if s then Gt else Lt)
    | S754_zero _ => Some Eq
    | S754_finite s _ _ => Some (if s then Gt else Lt)
    end.
Proof.
  unfold int_cmp_float. destruct (Prim2SF f) as [s|s| |s m e]; try reflexivity.
  f_equal. destruct (0 <=? e)%Z eqn:He.
  - apply Z.leb_le in He.
    assert (0 < 2 ^ e)%Z by now apply Z.pow_pos_nonneg.
    destruct s; [apply Z.compare_gt_iff | apply Z.compare_lt_iff]; nia.
  - destruct s; reflexivity.
Qed.

(** On the literal 0 and the floats, [<] is the IEEE-754 comparison. *)
Lemma num_lt_spec_float (a b : pynum) :
  zero_or_float a → zero_or_float b →
  num_lt a b = SFltb (spec_float_of a) (spec_float_of b).
Proof.
  intros [->|[x ->]] [->|[y ->]]; simpl.
  - reflexivity.
  - unfold int_lt_float. rewrite int_cmp_float_zero.
    unfold SFltb, SFcompare.
    destruct (Prim2SF y) as [s|s| |s m e]; try destruct s; reflexivity.
  - unfold float_lt_int. rewrite int_cmp_float_zero.
    unfold SFltb, SFcompare.
    destruct (Prim2SF x) as [s|s| |s m e]; try destruct s; reflexivity.
  - apply ltb_spec.
Qed.

Lemma num_lt_irrefl (a : pynum) : zero_or_float a → num_lt a a = false.
Proof. intros Ha. rewrite num_lt_spec_float by assumption. apply SFltb_irrefl. Qed.

Lemma num_lt_trans (a b c : pynum) :
  zero_or_float a → zero_or_float b → zero_or_float c →
  num_lt a b = true → num_lt b c = true → num_lt a c = true.
Proof.
  intros Ha Hb Hc. rewrite !num_lt_spec_float by assumption. apply SFltb_trans.
Qed.

(** ** Folding [min] and [max] *)

Section Extremum.
Context {A : Type} (lt : A → A → bool) (pick : A → A → A) (dom : A → Prop).
Hypothesis pick_lt : ∀ a b, pick a b = if lt a b then b else a.
Hypothesis lt_irrefl : ∀ a, dom a → lt a a = false.
Hypothesis lt_trans :
  ∀ a b c, dom a → dom b → dom c → lt a b = true → lt b c = true → lt a c = true.

(** Folding [pick] from [a] over [l] ends on [a] or on an element of [l]
    above [a], and neither [a] nor any element of [l] lies above it. *)
Lemma fold_pick (l : list A) (a : A) :
  dom a → Forall dom l →
  (fold_left pick l a = a
   ∨ (fold_left pick l a ∈ l ∧ lt a (fold_left pick l a) = true))
  ∧ dom (fold_left pick l a)
  ∧ lt (fold_left pick l a) a = false
  ∧ ∀ x, x ∈ l → lt (fold_left pick l a) x = false.
Proof using pick_lt lt_irrefl lt_trans.
  revert a. induction l as [|b l IH]; intros a Ha Hl; simpl.
  - split; [now left|]. split; [exact Ha|]. split; [now apply lt_irrefl|].
    intros x Hx. inversion Hx.
  - inversion Hl as [|? ? Hb Hl']; subst.
    assert (Hp : dom (pick a b)) by (rewrite pick_lt; destruct (lt a b); assumption).
    destruct (IH (pick a b) Hp Hl') as (Hmem & Hdom & Hlow & Hall).
    set (r := fold_left pick l (pick a b)) in *.
    rewrite pick_lt in Hmem, Hlow. destruct (lt a b) eqn:Hab.
    + assert (Hra : lt r a = false).
      { destruct (lt r a) eqn:Hra; [|reflexivity].
        rewrite (lt_trans r a b) in Hlow by assumption. discriminate. }
      split; [right|split; [exact Hdom|split; [exact Hra|]]].
      * destruct Hmem as [->|[Hin Hbr]]; [split; [left | exact Hab]|].
        split; [now right | now apply (lt_trans a b r)].
      * intros x Hx. inversion Hx; subst; [exact Hlow | now apply Hall].
    + assert (Hrb : lt r b = false).
      { destruct (lt r b) eqn:Hrb; [|reflexivity].
        destruct Hmem as [Heq|[_ Har]]; [rewrite Heq in Hrb; congruence|].
        rewrite (lt_trans a r b) in Hab by assumption. discriminate. }
      split; [|split; [exact Hdom|split; [exact Hlow|]]].
      * destruct Hmem as [->|[Hin Har]]; [now left|].
        right. split; [now right | exact Har].
      * intros x Hx. inversion Hx; subst; [exact Hrb | now apply Hall].
Qed.
End Extremum.

Lemma fold_py_max (l : list float) (a : pynum) :
  zero_or_float a → greatest_of a (fold_left py_max (PyFloat <$> l) a) l.
Proof.
  intros Ha.
  destruct (fold_pick num_lt py_max zero_or_float (fun _ _ => eq_refl)
              num_lt_irrefl num_lt_trans (PyFloat <$> l) a Ha)
    as (Hmem & _ & Hlow & Hall).
  { apply Forall_forall. intros x Hx. apply list_elem_of_fmap in Hx as (f & -> & _).
    right. now exists f. }
  split; [|split; [exact Hlow|]].
  - destruct Hmem as [Heq|[Hin _]]; [now left|]. right.
    apply list_elem_of_fmap in Hin as (f & Hf & Hin). now exists f.
  - intros f Hf. apply Hall, list_elem_of_fmap. now exists f.
Qed.

Lemma fold_py_min (l : list float) (a : pynum) :
  zero_or_float a → least_of a (fold_left py_min (PyFloat <$> l) a) l.
Proof.
  intros Ha.
  destruct (fold_pick (fun x y => num_lt y x) py_min zero_or_float (fun _ _ => eq_refl)
              num_lt_irrefl
              (fun x y z Hx Hy Hz Hxy Hyz => num_lt_trans z y x Hz Hy Hx Hyz Hxy)
              (PyFloat <$> l) a Ha)
    as (Hmem & _ & Hlow & Hall).
  { apply Forall_forall. intros x Hx. apply list_elem_of_fmap in Hx as (f & -> & _).
    right. now exists f. }
  split; [|split; [exact Hlow|]].
  - destruct Hmem as [Heq|[Hin _]]; [now left|]. right.
    apply list_elem_of_fmap in Hin as (f & Hf & Hin). now exists f.
  - intros f Hf. apply Hall, list_elem_of_fmap. now exists f.
Qed.

(** ** The time range of the summary *)

Lemma starts_have_ends_cons (ev : event) (evs : list event) :
  starts_have_ends (ev :: evs) →
  (is_Some (start_time ev) → is_Some (end_time ev)) ∧ starts_have_ends evs.
Proof.
  intros H. split.
  - apply H, list_elem_of_here.
  - intros x Hx. apply H. now apply list_elem_of_further.
Qed.

(** The loop returns when every started event has an end, and then the
    time range is the fold of [min] over the start times and of [max] over
    the end times of the started events. *)
Lemma summary_loop_time_range (evs : list event) (st : stats_acc) :
  starts_have_ends evs →
  ∃ st', summary_loop st evs = Return st'
         ∧ tr_start (acc_time_range st')
           = fold_left py_min (PyFloat <$> start_times evs)
               (tr_start (acc_time_range st))
         ∧ tr_end (acc_time_range st')
           = fold_left py_max (PyFloat <$> started_end_times evs)
               (tr_end (acc_time_range st)).
Proof.
  revert st. induction evs as [|ev evs IH]; intros st H.
  - exists st. repeat split; reflexivity.
  - apply starts_have_ends_cons in H as [Hev H].
    unfold start_times, started_end_times in *. simpl.
    unfold summary_step.
    destruct (start_time ev) as [s|] eqn:Hs.
    + destruct Hev as [e He]; [now exists s|]. rewrite He. simpl.
      match goal with |- context [summary_loop ?st1 evs] =>
        destruct (IH st1 H) as (st' & Hl & Hstart & Hend) end.
      exists st'. split; [exact Hl|]. split; [exact Hstart | exact Hend].
    + simpl.
      match goal with |- context [summary_loop ?st1 evs] =>
        destruct (IH st1 H) as (st' & Hl & Hstart & Hend) end.
      exists st'. split; [exact Hl|]. split; [exact Hstart | exact Hend].
Qed.

(** A started event without an end makes the loop raise [KeyError]. *)
Lemma summary_loop_key_error (evs : list event) (st : stats_acc) (ev : event) :
  ev ∈ evs → is_Some (start_time ev) → end_time ev = None →
  summary_loop st evs = Raise KeyError.
Proof.
  intros Hin [s Hs] He. revert st.
  induction evs as [|x evs IH]; intros st; [inversion Hin|].
  simpl. destruct (summary_step st x) as [st1|e] eqn:Hx.
  - simpl. apply IH. inversion Hin; subst; [|assumption].
    unfold summary_step in Hx. rewrite Hs, He in Hx. discriminate.
  - unfold summary_step in Hx. destruct (start_time x); [|discriminate].
    destruct (end_time x); [discriminate|]. simpl in Hx.
    injection Hx as <-. reflexivity.
Qed.

Lemma no_start_no_started_end (evs : list event) :
  start_times evs = [] → started_end_times evs = [].
Proof.
  unfold start_times, started_end_times.
  induction evs as [|ev evs IH]; simpl; [reflexivity|].
  destruct (start_time ev); [discriminate | exact IH].
Qed.

(** C6 (as the specification states it, refuted): when an event carries an
    end time and no start time, the end of the range is not the maximum
    over the events that carry an end time. *)
Lemma time_range_not_as_specified :
  ¬ time_range_as_specified (extracted late_end).
Proof.
  intros (s & Hs & _ & Hmax & _).
  vm_compute in Hs. injection Hs as <-.
  destruct Hmax as [_ Hmax]; [vm_compute; discriminate|].
  specialize (Hmax 5%float). vm_compute in Hmax.
  assert (H : true = false); [|discriminate].
  apply Hmax. right. left.
Qed.

(** C6 (amended): for a non-empty event sequence in which every event
    that carries a start time also carries an end time, the summary is
    returned and its time range has for start the least of +infinity and
    the start times of the events that carry one, and for end the greatest
    of 0 and the end times of the events that carry a start time; when no
    event carries a start time, start stays +infinity and end stays 0. *)
Theorem time_range_of_summary (self : parser) :
  events self ≠ [] →
  starts_have_ends (events self) →
  ∃ s, get_summary_stats self = Return (Stats s)
       ∧ least_of (PyFloat infinity) (tr_start (time_range s))
           (start_times (events self))
       ∧ greatest_of (PyInt 0) (tr_end (time_range s))
           (started_end_times (events self))
       ∧ (start_times (events self) = [] →
          time_range s = mk_time_range (PyFloat infinity) (PyInt 0)).
Proof.
  intros Hne Hse.
  destruct (summary_loop_time_range (events self) initial_stats Hse)
    as (st & Hl & Hstart & Hend).
  change (tr_start (acc_time_range initial_stats)) with (PyFloat infinity) in Hstart.
  change (tr_end (acc_time_range initial_stats)) with (PyInt 0) in Hend.
  exists {| total_events := length (events self);
            teams := elements (acc_teams st);
            actions := acc_actions st;
            halves := acc_halves st;
            time_range := acc_time_range st |}.
  split.
  { unfold get_summary_stats. rewrite Hl.
    destruct (events self); [congruence | reflexivity]. }
  cbn [time_range].
  split; [rewrite Hstart; apply fold_py_min; right; now exists infinity|].
  split; [rewrite Hend; apply fold_py_max; now left|].
  intros Hno. rewrite (no_start_no_started_end _ Hno) in Hend. rewrite Hno in Hstart.
  destruct (acc_time_range st) as [a b]. cbn in Hstart, Hend. congruence.
Qed.

Lemma time_range_of_summary_witness :
  ∃ s, get_summary_stats (extracted sample_match) = Return (Stats s)
       ∧ least_of (PyFloat infinity) (tr_start (time_range s))
           (start_times (events (extracted sample_match)))
       ∧ greatest_of (PyInt 0) (tr_end (time_range s))
           (started_end_times (events (extracted sample_match)))
       ∧ (start_times (events (extracted sample_match)) = [] →
          time_range s = mk_time_range (PyFloat infinity) (PyInt 0)).
Proof.
  apply (time_range_of_summary (extracted sample_match)).
  - vm_compute. discriminate.
  - intros ev Hev. apply list_elem_of_In in Hev. vm_compute in Hev.
    destruct Hev as [<-|[<-|[<-|[]]]]; vm_compute; intros [x Hx];
      (discriminate || eexists; reflexivity).
Defined.

(** ** The end-to-end scenario *)

(** The three-instance match gives three events, the teams A and B, two
    Goals and one accurate pass, two events in the first half and one in
    the second. *)
Lemma sample_match_summary :
  ∃ s, get_summary_stats (extracted sample_match) = Return (Stats s)
       ∧ total_events s = 3
       ∧ teams s ≡ₚ ["A"; "B"]
       ∧ actions s = {["Goals" := 2; "Passes accurate" := 1]}
       ∧ halves s = {["1" := 2; "2" := 1]}
       ∧ time_range s = mk_time_range (PyFloat 1.5) (PyFloat 2.5).
Proof.
  eexists. split; [vm_compute; reflexivity|]. cbn [total_events teams actions halves time_range].
  repeat split; try (vm_compute; reflexivity).
Qed.

(** The player list of the codes of a match: distinct names, sorted. *)
Lemma sample_player_list :
  get_player_list_from_df
    ["12.John Smith(5) - Passes accurate"; "Passes accurate";
     "3.Dan Biton (10) - Shots"; "12.John Smith(5) - Goals"]
  = Return ["Dan Biton"; "John Smith"].
Proof. vm_compute. reflexivity. Qed.

(** * Further properties of the code *)

(** ** The summary: failure, counts and teams *)

Lemma summary_step_fields (st st' : stats_acc) (ev : event) :
  summary_step st ev = Return st' →
  acc_actions st' = tally "Action" (acc_actions st) ev
  ∧ acc_halves st' = tally "Half" (acc_halves st) ev
  ∧ acc_teams st' = match collected_team ev with
                    | Some team => {[team]} ∪ acc_teams st
                    | None => acc_teams st
                    end.
Proof.
  unfold summary_step, tally, collected_team. intros H.
  assert (Hst : ∃ tr, st' = mk_stats_acc
      match labels_get ev "Team" with
      | Some team => if str_truthy team && bool_decide (team ≠ "None")
                     then {[team]} ∪ acc_teams st else acc_teams st
      | None => acc_teams st
      end
      match labels_get ev "Action" with
      | Some action => if str_truthy action then count_up (acc_actions st) action
                       else acc_actions st
      | None => acc_actions st
      end
      match labels_get ev "Half" with
      | Some half => if str_truthy half then count_up (acc_halves st) half
                     else acc_halves st
      | None => acc_halves st
      end tr).
  { destruct (start_time ev); [destruct (end_time ev); [|discriminate]|];
      simpl in H; injection H as <-; eexists; reflexivity. }
  destruct Hst as [tr ->]. simpl. repeat split.
  destruct (labels_get ev "Team") as [team|]; [|reflexivity].
  destruct (str_truthy team && bool_decide (team ≠ "None")); reflexivity.
Qed.

Lemma summary_step_raise (st : stats_acc) (ev : event) (e : exn) :
  summary_step st ev = Raise e →
  e = KeyError ∧ is_Some (start_time ev) ∧ end_time ev = None.
Proof.
  unfold summary_step. destruct (start_time ev) as [s|]; [|discriminate].
  destruct (end_time ev) as [n|]; [discriminate|]. simpl. intros [= <-].
  repeat split. now exists s.
Qed.

Lemma summary_loop_raise (evs : list event) (st : stats_acc) (e : exn) :
  summary_loop st evs = Raise e →
  e = KeyError ∧ ∃ ev, ev ∈ evs ∧ is_Some (start_time ev) ∧ end_time ev = None.
Proof.
  revert st. induction evs as [|x evs IH]; intros st; simpl; [discriminate|].
  intros H. apply bind_Raise in H as [H|(st1 & _ & H)].
  - apply summary_step_raise in H as (-> & Hs & He).
    split; [reflexivity|]. exists x. split; [apply list_elem_of_here | auto].
  - destruct (IH _ H) as (-> & ev & Hin & Hs & He).
    split; [reflexivity|]. exists ev. split; [now apply list_elem_of_further | auto].
Qed.

Lemma summary_loop_fields (evs : list event) (st st' : stats_acc) :
  summary_loop st evs = Return st' →
  acc_actions st' = fold_left (tally "Action") evs (acc_actions st)
  ∧ acc_halves st' = fold_left (tally "Half") evs (acc_halves st)
  ∧ acc_teams st' = acc_teams st ∪ list_to_set (omap collected_team evs).
Proof.
  revert st. induction evs as [|x evs IH]; intros st; simpl.
  - intros [= <-]. repeat split. set_solver.
  - intros H. apply bind_Return in H as (st1 & Hx & H).
    apply summary_step_fields in Hx as (Ha & Hh & Ht).
    destruct (IH _ H) as (-> & -> & ->). rewrite Ha, Hh, Ht.
    repeat split. destruct (collected_team x); set_solver.
Qed.

(** X1: [get_summary_stats] fails exactly when some event carries a start
    time and no end time, and the failure is always a [KeyError]. *)
Theorem summary_fails_iff (self : parser) (e : exn) :
  get_summary_stats self = Raise e
  ↔ e = KeyError
    ∧ ∃ ev, ev ∈ events self ∧ is_Some (start_time ev) ∧ end_time ev = None.
Proof.
  unfold get_summary_stats. split.
  - destruct (events self) as [|x evs] eqn:He; [discriminate|].
    intros H. apply bind_Raise in H as [H|(st & _ & H)]; [|discriminate].
    now apply summary_loop_raise in H.
  - intros (-> & ev & Hin & Hs & Hn).
    rewrite (summary_loop_key_error (events self) initial_stats ev Hin Hs Hn).
    destruct (events self); [inversion Hin | reflexivity].
Qed.

(** The count a fold of [tally] leaves for one value. *)
Lemma tally_fold_lookup (group : string) (evs : list event)
    (counts : gmap string nat) (v : string) :
  fold_left (tally group) evs counts !! v
  = let n := length (List.filter
                       (fun ev => bool_decide (labels_get ev group = Some v)) evs) in
    if str_truthy v && (0 <? n)%nat then Some (default 0%nat (counts !! v) + n)
    else counts !! v.
Proof.
  revert counts. induction evs as [|ev evs IH]; intros counts; simpl.
  - now rewrite andb_false_r.
  - rewrite IH. clear IH. cbv zeta. unfold tally, count_up.
    destruct (labels_get ev group) as [w|] eqn:Hw.
    + destruct (decide (w = v)) as [->|Hne].
      * rewrite bool_decide_true by reflexivity. simpl.
        destruct (str_truthy v) eqn:Hv; simpl; [|reflexivity].
        rewrite lookup_insert_eq. simpl.
        destruct (length (List.filter _ evs)) as [|n]; simpl; f_equal; lia.
      * rewrite bool_decide_false by congruence.
        destruct (str_truthy w); [|reflexivity].
        rewrite lookup_insert_ne by assumption. reflexivity.
    + rewrite bool_decide_false by congruence. reflexivity.
Qed.

Lemma str_truthy_nonempty (s : string) : str_truthy s = true ↔ s ≠ "".
Proof. destruct s; simpl; split; congruence. Qed.

Lemma tally_count (group : string) (evs : list event) (v : string) (n : nat) :
  fold_left (tally group) evs ∅ !! v = Some n
  ↔ v ≠ "" ∧ 0 < n
    ∧ n = length (List.filter
                    (fun ev => bool_decide (labels_get ev group = Some v)) evs).
Proof.
  rewrite tally_fold_lookup. cbv zeta. rewrite lookup_empty. simpl.
  destruct (str_truthy v) eqn:Hv; simpl.
  - apply str_truthy_nonempty in Hv.
    destruct (length _) as [|k]; simpl; split.
    + discriminate.
    + intros (_ & H & ->). lia.
    + intros [= <-]. repeat split; [assumption | lia].
    + intros (_ & _ & ->). reflexivity.
  - split; [discriminate|]. intros (H & _). apply str_truthy_nonempty in H. congruence.
Qed.

Lemma summary_returns_fields (self : parser) (s : summary_stats) :
  get_summary_stats self = Return (Stats s) →
  total_events s = length (events self)
  ∧ actions s = fold_left (tally "Action") (events self) ∅
  ∧ halves s = fold_left (tally "Half") (events self) ∅
  ∧ teams s = elements (list_to_set (omap collected_team (events self)) : gset string).
Proof.
  unfold get_summary_stats. destruct (events self) as [|x evs] eqn:He; [discriminate|].
  intros H. apply bind_Return in H as (st & Hl & H). injection H as <-.
  apply summary_loop_fields in Hl as (Ha & Hh & Ht). simpl in *.
  rewrite Ha, Hh, Ht. repeat split. f_equal. set_solver.
Qed.

(** X2: in a returned summary, [actions] maps a value to n exactly when
    the value is a non-empty string and n > 0 events carry it as Action
    label, the events [get_events_by_action] returns for it. *)
Theorem summary_actions_count (self : parser) (s : summary_stats) :
  get_summary_stats self = Return (Stats s) →
  ∀ action n,
    actions s !! action = Some n
    ↔ action ≠ "" ∧ 0 < n ∧ n = length (get_events_by_action self action).
Proof.
  intros H action n. apply summary_returns_fields in H as (_ & -> & _).
  apply tally_count.
Qed.

(** X3: in a returned summary, [halves] maps a value to n exactly when the
    value is a non-empty string and n > 0 events carry it as Half label,
    the events [get_events_by_half] returns for it. *)
Theorem summary_halves_count (self : parser) (s : summary_stats) :
  get_summary_stats self = Return (Stats s) →
  ∀ half n,
    halves s !! half = Some n
    ↔ half ≠ "" ∧ 0 < n ∧ n = length (get_events_by_half self half).
Proof.
  intros H half n. apply summary_returns_fields in H as (_ & _ & -> & _).
  apply tally_count.
Qed.

(** X4: in a returned summary, [teams] lists without repetition exactly
    the Team label values of the events, the empty string and "None"
    excepted. *)
Theorem summary_teams (self : parser) (s : summary_stats) :
  get_summary_stats self = Return (Stats s) →
  NoDup (teams s)
  ∧ ∀ team, team ∈ teams s
            ↔ team ≠ "" ∧ team ≠ "None"
              ∧ ∃ ev, ev ∈ events self ∧ labels_get ev "Team" = Some team.
Proof.
  intros H. apply summary_returns_fields in H as (_ & _ & _ & ->).
  split; [apply NoDup_elements|].
  intros team. rewrite elem_of_elements, elem_of_list_to_set, list_elem_of_omap.
  unfold collected_team. split.
  - intros (ev & Hin & Hc).
    destruct (labels_get ev "Team") as [t|] eqn:Ht; [|discriminate].
    destruct (str_truthy t && bool_decide (t ≠ "None")) eqn:Hb; [|discriminate].
    injection Hc as ->. apply andb_true_iff in Hb as [Hb1 Hb2].
    apply str_truthy_nonempty in Hb1. apply bool_decide_eq_true in Hb2.
    repeat split; try assumption. now exists ev.
  - intros (Hne & Hnn & ev & Hin & Ht). exists ev. split; [exact Hin|].
    rewrite Ht. apply str_truthy_nonempty in Hne. rewrite Hne.
    rewrite bool_decide_true by assumption. reflexivity.
Qed.

Lemma summary_actions_count_witness :
  ∃ s, get_summary_stats (extracted sample_match) = Return (Stats s)
       ∧ ∀ action n,
           actions s !! action = Some n
           ↔ action ≠ "" ∧ 0 < n
             ∧ n = length (get_events_by_action (extracted sample_match) action).
Proof.
  eexists. split; [vm_compute; reflexivity|].
  apply summary_actions_count. vm_compute. reflexivity.
Defined.

Lemma summary_halves_count_witness :
  ∃ s, get_summary_stats (extracted sample_match) = Return (Stats s)
       ∧ ∀ half n,
           halves s !! half = Some n
           ↔ half ≠ "" ∧ 0 < n
             ∧ n = length (get_events_by_half (extracted sample_match) half).
Proof.
  eexists. split; [vm_compute; reflexivity|].
  apply summary_halves_count. vm_compute. reflexivity.
Defined.

Lemma summary_teams_witness :
  ∃ s, get_summary_stats (extracted sample_match) = Return (Stats s)
       ∧ NoDup (teams s)
       ∧ ∀ team, team ∈ teams s
                 ↔ team ≠ "" ∧ team ≠ "None"
                   ∧ ∃ ev, ev ∈ events (extracted sample_match)
                           ∧ labels_get ev "Team" = Some team.
Proof.
  eexists. split; [vm_compute; reflexivity|].
  apply summary_teams. vm_compute. reflexivity.
Defined.

(** ** The time range holds no NaN *)

Lemma SFltb_not_nan (x y : spec_float) :
  SFltb x y = true → x ≠ S754_nan ∧ y ≠ S754_nan.
Proof.
  unfold SFltb, SFcompare.
  destruct x as [sx|sx| |sx mx ex], y as [sy|sy| |sy my ey];
    (discriminate || (intros _; split; discriminate)).
Qed.

Lemma SFeqb_refl (x : spec_float) : x ≠ S754_nan → SFeqb x x = true.
Proof.
  unfold SFeqb, SFcompare.
  destruct x as [s|s| |s m e]; try destruct s; try reflexivity; try congruence;
    intros _; rewrite Z.compare_refl; change (Pos.compare_cont Eq) with Pos.compare;
    rewrite Pos.compare_refl; reflexivity.
Qed.

Lemma float_not_nan (f : float) : Prim2SF f ≠ S754_nan → is_nan f = false.
Proof.
  intros H. unfold is_nan. rewrite FloatAxioms.eqb_spec, SFeqb_refl by assumption.
  reflexivity.
Qed.

(** A number that compares below or above another one is not a NaN. *)
Lemma num_lt_not_nan (a b : pynum) :
  zero_or_float a → zero_or_float b → num_lt a b = true →
  is_nan_num a = false ∧ is_nan_num b = false.
Proof.
  intros Ha Hb. rewrite num_lt_spec_float by assumption.
  intros H. apply SFltb_not_nan in H as [Hx Hy].
  split; [destruct a | destruct b]; simpl in *;
    (reflexivity || now apply float_not_nan).
Qed.

Lemma fold_py_min_strict (l : list float) (a : pynum) :
  zero_or_float a →
  zero_or_float (fold_left py_min (PyFloat <$> l) a)
  ∧ (fold_left py_min (PyFloat <$> l) a = a
     ∨ num_lt (fold_left py_min (PyFloat <$> l) a) a = true).
Proof.
  intros Ha.
  destruct (fold_pick (fun x y => num_lt y x) py_min zero_or_float (fun _ _ => eq_refl)
              num_lt_irrefl
              (fun x y z Hx Hy Hz Hxy Hyz => num_lt_trans z y x Hz Hy Hx Hyz Hxy)
              (PyFloat <$> l) a Ha)
    as (Hmem & Hdom & _).
  { apply Forall_forall. intros x Hx. apply list_elem_of_fmap in Hx as (f & -> & _).
    right. now exists f. }
  split; [exact Hdom|]. destruct Hmem as [H|[_ H]]; auto.
Qed.

Lemma fold_py_max_strict (l : list float) (a : pynum) :
  zero_or_float a →
  zero_or_float (fold_left py_max (PyFloat <$> l) a)
  ∧ (fold_left py_max (PyFloat <$> l) a = a
     ∨ num_lt a (fold_left py_max (PyFloat <$> l) a) = true).
Proof.
  intros Ha.
  destruct (fold_pick num_lt py_max zero_or_float (fun _ _ => eq_refl)
              num_lt_irrefl num_lt_trans (PyFloat <$> l) a Ha)
    as (Hmem & Hdom & _).
  { apply Forall_forall. intros x Hx. apply list_elem_of_fmap in Hx as (f & -> & _).
    right. now exists f. }
  split; [exact Hdom|]. destruct Hmem as [H|[_ H]]; auto.
Qed.

(** A loop that returns met an end time on every started event. *)
Lemma summary_loop_returns_ends (evs : list event) (st st' : stats_acc) :
  summary_loop st evs = Return st' → starts_have_ends evs.
Proof.
  intros H ev Hin Hs. destruct (end_time ev) as [e|] eqn:He; [now exists e|].
  rewrite (summary_loop_key_error evs st ev Hin Hs He) in H. discriminate.
Qed.

Lemma summary_returns_time_range (self : parser) (s : summary_stats) :
  get_summary_stats self = Return (Stats s) →
  tr_start (time_range s)
  = fold_left py_min (PyFloat <$> start_times (events self)) (PyFloat infinity)
  ∧ tr_end (time_range s)
    = fold_left py_max (PyFloat <$> started_end_times (events self)) (PyInt 0).
Proof.
  unfold get_summary_stats. destruct (events self) as [|x evs] eqn:He; [discriminate|].
  intros H. apply bind_Return in H as (st & Hl & H). injection H as <-.
  destruct (summary_loop_time_range (x :: evs) initial_stats
              (summary_loop_returns_ends _ _ _ Hl)) as (st2 & Hl2 & Hs & Hn).
  rewrite Hl in Hl2. injection Hl2 as <-. split; assumption.
Qed.

(** X5: a returned summary never has a NaN in its time range, whatever
    the times of the events are: the start is +infinity or a start time
    strictly below +infinity, the end is the integer 0 or an end time
    strictly above 0. *)
Theorem time_range_not_nan (self : parser) (s : summary_stats) :
  get_summary_stats self = Return (Stats s) →
  (is_nan_num (tr_start (time_range s)) = false
   ∧ (tr_start (time_range s) = PyFloat infinity
      ∨ ∃ f, f ∈ start_times (events self) ∧ tr_start (time_range s) = PyFloat f
             ∧ (f <? infinity)%float = true))
  ∧ (is_nan_num (tr_end (time_range s)) = false
     ∧ (tr_end (time_range s) = PyInt 0
        ∨ ∃ f, f ∈ started_end_times (events self)
               ∧ tr_end (time_range s) = PyFloat f ∧ int_lt_float 0 f = true)).
Proof.
  intros H. apply summary_returns_time_range in H as [-> ->]. split.
  - destruct (fold_py_min_strict (start_times (events self)) (PyFloat infinity))
      as [Hdom [Heq|Hlt]]; [right; now exists infinity | |].
    + rewrite Heq. split; [reflexivity | now left].
    + split.
      { apply (num_lt_not_nan _ (PyFloat infinity) Hdom); [|exact Hlt].
        right. now exists infinity. }
      destruct (fold_py_min (start_times (events self)) (PyFloat infinity))
        as ([Heq|(f & Hf & Heq)] & _); [right; now exists infinity | now left |].
      right. exists f. rewrite Heq in Hlt |- *. auto.
  - destruct (fold_py_max_strict (started_end_times (events self)) (PyInt 0))
      as [Hdom [Heq|Hlt]]; [now left | |].
    + rewrite Heq. split; [reflexivity | now left].
    + split.
      { apply (num_lt_not_nan (PyInt 0) _ (or_introl eq_refl) Hdom Hlt). }
      destruct (fold_py_max (started_end_times (events self)) (PyInt 0))
        as ([Heq|(f & Hf & Heq)] & _); [now left | now left |].
      right. exists f. rewrite Heq in Hlt |- *. auto.
Qed.

Lemma time_range_not_nan_witness :
  ∃ s, get_summary_stats (extracted nan_times) = Return (Stats s)
       ∧ is_nan_num (tr_start (time_range s)) = false
       ∧ is_nan_num (tr_end (time_range s)) = false.
Proof.
  eexists. split; [vm_compute; reflexivity|].
  match goal with |- is_nan_num (tr_start (time_range ?s)) = _ ∧ _ =>
    destruct (time_range_not_nan (extracted nan_times) s) as [[H1 _] [H2 _]] end.
  - vm_compute. reflexivity.
  - split; [exact H1 | exact H2].
Defined.

(** ** Extraction: repetition, failure, fields and labels *)

(** X6: extracting again from the parser an extraction left behind gives
    the same result and the same parser: events are replaced, never
    accumulated, also after a failure or an early return. *)
Theorem extract_events_again (self : parser) :
  extract_events (snd (extract_events self)) = extract_events self.
Proof.
  unfold extract_events. destruct (root self) as [r|] eqn:Hr; simpl.
  - destruct (negb (elem_truthy r)) eqn:Ht; simpl.
    + rewrite Hr, Ht. reflexivity.
    + destruct (find_descendant r "ALL_INSTANCES") as [c|] eqn:Hc; simpl.
      * destruct (extract_loop (findall c "instance") []) as [res evs] eqn:Hl.
        simpl. rewrite Ht, Hc, Hl. reflexivity.
      * rewrite Hr, Ht, Hc. reflexivity.
  - rewrite Hr. reflexivity.
Qed.

Lemma extract_loop_prefix (instances : list Element) (acc : list event) (e : exn) :
  fst (extract_loop instances acc) = Raise e →
  ∃ pre instance post evs,
    instances = (pre ++ instance :: post)%list
    ∧ _parse_instance instance = Raise e
    ∧ Forall2 (fun i ev => _parse_instance i = Return ev) pre evs
    ∧ snd (extract_loop instances acc) = (acc ++ evs)%list.
Proof.
  revert acc. induction instances as [|x l IH]; intros acc; simpl; [discriminate|].
  destruct (_parse_instance x) as [ev|e'] eqn:Hx.
  - rewrite event_truthy_true. intros H.
    destruct (IH _ H) as (pre & i & post & evs & -> & Hi & HF & Hs).
    exists (x :: pre), i, post, (ev :: evs). split; [reflexivity|].
    split; [exact Hi|]. split; [now constructor|].
    rewrite Hs, <- app_assoc. reflexivity.
  - simpl. intros [= <-]. exists [], x, l, [].
    split; [reflexivity|]. split; [exact Hx|]. split; [constructor|].
    now rewrite app_nil_r.
Qed.

(** X7: when the extraction fails, the parser holds exactly the events of
    the instances that precede the first one that does not parse, and the
    exception is the one of that instance. *)
Theorem extract_failure_keeps_prefix (self : parser) (r c : Element) (e : exn) :
  root self = Some r →
  find_descendant r "ALL_INSTANCES" = Some c →
  fst (extract_events self) = Raise e →
  ∃ pre instance post,
    findall c "instance" = (pre ++ instance :: post)%list
    ∧ _parse_instance instance = Raise e
    ∧ Forall2 (fun i ev => _parse_instance i = Return ev) pre
        (events (snd (extract_events self))).
Proof.
  intros Hr Hc. rewrite (extract_events_container self r c Hr Hc). simpl.
  intros H. apply bind_Raise in H as [H|(u & _ & H)]; [|discriminate].
  destruct (extract_loop_prefix _ _ _ H) as (pre & i & post & evs & Hl & Hi & HF & Hs).
  exists pre, i, post. rewrite Hs. auto.
Qed.

Lemma extract_failure_keeps_prefix_witness :
  ∃ pre instance post,
    findall (container bad_second_instances) "instance"
    = (pre ++ instance :: post)%list
    ∧ _parse_instance instance = Raise ValueError
    ∧ Forall2 (fun i ev => _parse_instance i = Return ev) pre
        (events (extracted bad_second)).
Proof.
  apply (extract_failure_keeps_prefix (loaded bad_second) bad_second
           (container bad_second_instances)); vm_compute; reflexivity.
Defined.

Lemma parse_field_presence {A} (conv : option string → result A)
    (child : option Element) (v : option A) :
  parse_field conv child = Return v →
  (is_Some v ↔ is_Some child)
  ∧ ∀ el, child = Some el → ∃ x, conv (text el) = Return x ∧ v = Some x.
Proof.
  destruct child as [el|]; simpl.
  - destruct (conv (text el)) as [x|e] eqn:Hc; simpl; [|discriminate].
    intros [= <-]. split; [split; eauto|].
    intros el' [= <-]. eauto.
  - intros [= <-]. split; [split; intros [? [=]]|]. intros el [=].
Qed.

(** X8: an event has a field exactly when the instance has the child
    (nothing is defaulted), the numeric fields are the conversions of the
    first such child's text, and [code] is its text as it is. *)
Theorem parsed_fields_reflect_children (instance : Element) (ev : event) :
  _parse_instance instance = Return ev →
  ((is_Some (event_id ev) ↔ is_Some (find instance "ID"))
   ∧ ∀ el, find instance "ID" = Some el →
           ∃ z, py_int (text el) = Return z ∧ event_id ev = Some z)
  ∧ ((is_Some (start_time ev) ↔ is_Some (find instance "start"))
     ∧ ∀ el, find instance "start" = Some el →
             ∃ f, py_float (text el) = Return f ∧ start_time ev = Some f)
  ∧ ((is_Some (end_time ev) ↔ is_Some (find instance "end"))
     ∧ ∀ el, find instance "end" = Some el →
             ∃ f, py_float (text el) = Return f ∧ end_time ev = Some f)
  ∧ code ev = text <$> find instance "code".
Proof.
  unfold _parse_instance. intros H.
  apply bind_Return in H as (i & Hi & H).
  apply bind_Return in H as (s & Hs & H).
  apply bind_Return in H as (n & Hn & H).
  injection H as <-. simpl.
  split; [now apply parse_field_presence|].
  split; [now apply parse_field_presence|].
  split; [now apply parse_field_presence | reflexivity].
Qed.

Lemma parsed_fields_reflect_children_witness :
  ∃ ev, _parse_instance (Elem "instance" None [leaf "ID" " 7 "; leaf "code" "x"])
        = Return ev
        ∧ event_id ev = Some 7%Z ∧ start_time ev = None
        ∧ code ev = Some (Some "x").
Proof.
  eexists. split; [vm_compute; reflexivity|].
  match goal with |- event_id ?e = _ ∧ _ =>
    destruct (parsed_fields_reflect_children
                (Elem "instance" None [leaf "ID" " 7 "; leaf "code" "x"]) e)
      as ((_ & Hid) & _ & _ & Hcode) end.
  - vm_compute. reflexivity.
  - destruct (Hid (leaf "ID" " 7 ") eq_refl) as (z & Hz & Hev).
    vm_compute in Hz. injection Hz as <-.
    split; [exact Hev|]. split; [reflexivity | exact Hcode].
Defined.

Lemma add_label_pair (acc : gmap (option string) (option string)) (l : Element) :
  add_label acc l = match label_pair l with
                    | Some (g, t) => <[g := t]> acc
                    | None => acc
                    end.
Proof.
  unfold add_label, label_pair.
  destruct (find l "group"), (find l "text"); reflexivity.
Qed.

Lemma fold_add_label_other (post : list Element)
    (acc : gmap (option string) (option string)) (g : option string) :
  (∀ l t, l ∈ post → label_pair l ≠ Some (g, t)) →
  fold_left add_label post acc !! g = acc !! g.
Proof.
  revert acc. induction post as [|l post IH]; intros acc H; simpl; [reflexivity|].
  rewrite IH by (intros l' t Hl'; apply H; now apply list_elem_of_further).
  rewrite add_label_pair.
  destruct (label_pair l) as [[g' t']|] eqn:Hp; [|reflexivity].
  apply lookup_insert_ne. intros ->. apply (H l t'); [apply list_elem_of_here | exact Hp].
Qed.

(** X9: when several label children of an instance name the same group,
    the last one that has both a group and a text child wins; a group no
    such child names is absent from the labels. *)
Theorem labels_last_wins (instance : Element) (ev : event) (g : option string) :
  _parse_instance instance = Return ev →
  (∀ pre l post t,
     findall instance "label" = (pre ++ l :: post)%list →
     label_pair l = Some (g, t) →
     (∀ l' t', l' ∈ post → label_pair l' ≠ Some (g, t')) →
     labels ev !! g = Some t)
  ∧ ((∀ l t, l ∈ findall instance "label" → label_pair l ≠ Some (g, t)) →
     labels ev !! g = None).
Proof.
  intros H. apply parse_instance_labels in H as [-> _]. split.
  - intros pre l post t -> Hl Hpost.
    rewrite fold_left_app. simpl. rewrite fold_add_label_other by assumption.
    rewrite add_label_pair, Hl. apply lookup_insert_eq.
  - intros Hnone. rewrite fold_add_label_other by assumption. apply lookup_empty.
Qed.

Lemma labels_last_wins_witness :
  ∃ ev, _parse_instance twice_labelled = Return ev
        ∧ labels ev !! Some "Team" = Some (Some "B")
        ∧ labels ev !! Some "Action" = None.
Proof.
  eexists. split; [vm_compute; reflexivity|].
  match goal with |- labels ?e !! _ = _ ∧ _ =>
    pose proof (labels_last_wins twice_labelled e (Some "Team")) as HT;
    pose proof (labels_last_wins twice_labelled e (Some "Action")) as HA end.
  destruct HT as [HT _]; [vm_compute; reflexivity|].
  destruct HA as [_ HA]; [vm_compute; reflexivity|].
  split.
  - apply (HT [label "Team" "A"; Elem "label" None [leaf "group" "Team"]]
              (label "Team" "B") [label "Half" "1"]); [reflexivity | reflexivity|].
    intros l' t' Hin. apply list_elem_of_In in Hin.
    destruct Hin as [<-|[]]. vm_compute. discriminate.
  - apply HA. intros l t Hin. apply list_elem_of_In in Hin. vm_compute in Hin.
    destruct Hin as [<-|[<-|[<-|[<-|[]]]]]; vm_compute; discriminate.
Defined.

(** ** Containment, and the filters *)

Lemma append_cons (c : ascii) (p s : string) :
  String c p +:+ s = String c (p +:+ s).
Proof. reflexivity. Qed.

Lemma append_nil (s : string) : "" +:+ s = s.
Proof. reflexivity. Qed.

Lemma prefix_of_append (sub r : string) : String.prefix sub (sub +:+ r) = true.
Proof.
  induction sub as [|c sub IH].
  - rewrite append_nil. destruct r; reflexivity.
  - rewrite append_cons. simpl. destruct (ascii_dec c c); [exact IH | congruence].
Qed.

Lemma str_contains_substring (sub s : string) :
  str_contains sub s = true ↔ is_substring sub s.
Proof.
  rewrite str_contains_find. split.
  - intros [i Hi]. apply str_find_occurs in Hi.
    exists (str_take i s), (str_drop (i + String.length sub) s). exact Hi.
  - intros (p & r & ->). induction p as [|c p IH].
    + rewrite append_nil. destruct (sub +:+ r) as [|c s'] eqn:Hs.
      * rewrite str_find_nil. rewrite <- Hs at 1.
        rewrite prefix_of_append. now eexists.
      * rewrite str_find_cons. rewrite <- Hs at 1.
        rewrite prefix_of_append. now eexists.
    + rewrite append_cons, str_find_cons.
      destruct (String.prefix sub (String c (p +:+ sub +:+ r))); [now eexists|].
      destruct IH as [i ->]. now eexists.
Qed.

(** X10: the containment test [sub in s], which the Team filter and the
    marker tests of the player codes apply, holds exactly when [s] is some
    prefix, then [sub], then some suffix. *)
Theorem contains_iff_substring (sub s : string) :
  str_contains sub s = true ↔ is_substring sub s.
Proof. apply str_contains_substring. Qed.

Lemma append_assoc (a b c : string) : (a +:+ b) +:+ c = a +:+ (b +:+ c).
Proof.
  induction a as [|x a IH]; [reflexivity|].
  rewrite !append_cons. now f_equal.
Qed.

Lemma is_substring_trans (a b c : string) :
  is_substring a b → is_substring b c → is_substring a c.
Proof.
  intros (p1 & r1 & ->) (p2 & r2 & ->).
  exists (p2 +:+ p1), (r1 +:+ r2). now rewrite !append_assoc.
Qed.

Lemma comprehension_raise {A} (cond : A → result bool) (l : list A) (e : exn) :
  comprehension cond l = Raise e → ∃ x, x ∈ l ∧ cond x = Raise e.
Proof.
  induction l as [|x l IH]; simpl; [discriminate|].
  intros H. apply bind_Raise in H as [H|(b & _ & H)].
  - exists x. split; [apply list_elem_of_here | exact H].
  - apply bind_Raise in H as [H|(rest & _ & H)]; [|discriminate].
    destruct (IH H) as (y & Hy & He). exists y.
    split; [now apply list_elem_of_further | exact He].
Qed.

(** X11: [get_events_by_team] fails exactly when some event has a Team
    label whose value is [None], whatever the query is, and the failure is
    always a [TypeError]. *)
Theorem team_filter_fails_iff (self : parser) (query : string) (e : exn) :
  get_events_by_team self query = Raise e
  ↔ e = TypeError
    ∧ ∃ ev, ev ∈ events self ∧ labels ev !! Some "Team" = Some None.
Proof.
  split.
  - intros H. apply comprehension_raise in H as (ev & Hin & H).
    unfold py_in, labels_get_default in H.
    destruct (labels ev !! Some "Team") as [[t|]|] eqn:Ht; simpl in H; try discriminate.
    injection H as <-. split; [reflexivity|]. now exists ev.
  - intros (-> & ev & Hin & Ht).
    destruct (team_filter_raises self query ev Hin Ht) as [e He].
    rewrite He. f_equal.
    apply comprehension_raise in He as (ev' & _ & He).
    unfold py_in in He. destruct (labels_get_default ev' "Team" ""); congruence.
Qed.

Lemma team_filter_returns (self : parser) (query : string) (l : list event) :
  get_events_by_team self query = Return l → team_values_present (events self).
Proof.
  intros H ev Hin Ht.
  destruct (team_filter_raises self query ev Hin Ht) as [e He]. congruence.
Qed.

Lemma filter_sublist {A} (p : A → bool) (l : list A) :
  List.filter p l `sublist_of` l.
Proof.
  induction l as [|x l IH]; simpl; [constructor|].
  destruct (p x); now constructor.
Qed.

Lemma filter_sublist_impl {A} (p q : A → bool) (l : list A) :
  (∀ x, p x = true → q x = true) →
  List.filter p l `sublist_of` List.filter q l.
Proof.
  intros H. induction l as [|x l IH]; simpl; [constructor|].
  destruct (p x) eqn:Hp.
  - rewrite (H x Hp). now constructor.
  - destruct (q x); [now constructor | exact IH].
Qed.

(** X12: the filters never invent, repeat or reorder events: what each one
    returns is a subsequence of the events of the parser. *)
Theorem filters_return_subsequences (self : parser) (query : string) :
  get_events_by_action self query `sublist_of` events self
  ∧ get_events_by_half self query `sublist_of` events self
  ∧ ∀ l, get_events_by_team self query = Return l → l `sublist_of` events self.
Proof.
  split; [apply filter_sublist|]. split; [apply filter_sublist|].
  intros l H. pose proof (team_filter_returns _ _ _ H) as Hp.
  unfold get_events_by_team in H.
  rewrite (comprehension_filter _ (team_or_empty_contains query)) in H.
  - injection H as <-. apply filter_sublist.
  - intros ev Hev. apply team_test_present. now apply Hp.
Qed.

(** X13: a shorter query finds more: when [narrow] contains [wide], the
    events the Team filter returns for [narrow] are a subsequence of those
    it returns for [wide]. *)
Theorem team_filter_monotone (self : parser) (wide narrow : string)
    (l : list event) :
  is_substring wide narrow →
  get_events_by_team self narrow = Return l →
  ∃ l', get_events_by_team self wide = Return l' ∧ l `sublist_of` l'.
Proof.
  intros Hsub H. pose proof (team_filter_returns _ _ _ H) as Hp.
  assert (Hq : ∀ q, get_events_by_team self q
            = Return (List.filter (team_or_empty_contains q) (events self))).
  { intros q. unfold get_events_by_team. apply comprehension_filter.
    intros ev Hev. apply team_test_present. now apply Hp. }
  rewrite Hq in H. injection H as <-. eexists. split; [apply Hq|].
  apply filter_sublist_impl. intros ev. unfold team_or_empty_contains.
  rewrite !str_contains_substring. now apply is_substring_trans.
Qed.

Lemma team_filter_monotone_witness :
  ∃ l l', get_events_by_team (extracted two_teams) "Bnei Yehuda" = Return l
          ∧ get_events_by_team (extracted two_teams) "e" = Return l'
          ∧ l `sublist_of` l' ∧ length l = 1 ∧ length l' = 2.
Proof.
  destruct (team_filter_monotone (extracted two_teams) "e" "Bnei Yehuda"
              (List.filter (team_or_empty_contains "Bnei Yehuda")
                 (events (extracted two_teams)))) as (l' & Hl' & Hsub).
  - exists "Bn", "i Yehuda". reflexivity.
  - vm_compute. reflexivity.
  - eexists _, l'. split; [vm_compute; reflexivity|].
    split; [exact Hl'|]. split; [exact Hsub|]. split; [vm_compute; reflexivity|].
    assert (Hc : get_events_by_team (extracted two_teams) "e"
                 = Return (events (extracted two_teams))) by (vm_compute; reflexivity).
    rewrite Hc in Hl'. injection Hl' as <-. vm_compute. reflexivity.
Defined.

(** ** Player names and the player list *)

Lemma decompose_raise_iff (code : string) (e : exn) :
  decompose_player_code code = Raise e
  ↔ e = IndexError ∧ has_markers code = true
    ∧ str_contains "." (before_first " - " code) = false.
Proof.
  rewrite decompose_player_code_cases. unfold name_segment, after_first, str_contains.
  destruct (has_markers code); [|split; [discriminate | intros (_ & [=] & _)]].
  destruct (str_find (before_first " - " code) ".") as [i|]; simpl.
  - split; [discriminate|]. intros (_ & _ & H).
    discriminate.
  - split; [intros [= <-] | intros (-> & _); reflexivity].
    repeat split.
Qed.

(** X14: the decomposition of a code fails exactly when the code has the
    three markers and its part before the first " - " has no ".", and the
    failure is always an [IndexError]. *)
Theorem decompose_fails_iff (code : string) (e : exn) :
  decompose_player_code code = Raise e
  ↔ e = IndexError ∧ has_markers code = true
    ∧ str_contains "." (before_first " - " code) = false.
Proof. apply decompose_raise_iff. Qed.

Lemma players_loop_returns (codes : list string) (acc ps : gset string) :
  players_loop acc codes = Return ps →
  ∀ n, n ∈ ps
       ↔ n ∈ acc ∨ ∃ code, code ∈ codes ∧ decompose_player_code code = Return (Some n).
Proof.
  revert acc. induction codes as [|c codes IH]; intros acc; simpl.
  - intros [= <-] n. split; [now left|]. intros [H|(code & Hin & _)]; [exact H|].
    inversion Hin.
  - intros H. apply bind_Return in H as (name & Hc & H).
    intros n. rewrite (IH _ H n). split.
    + intros [Hn|(code & Hin & Hd)].
      * destruct name as [m|]; [|now left].
        apply elem_of_union in Hn as [Hn|Hn]; [|now left].
        apply elem_of_singleton in Hn as ->. right. exists c.
        split; [apply list_elem_of_here | exact Hc].
      * right. exists code. split; [now apply list_elem_of_further | exact Hd].
    + intros [Hn|(code & Hin & Hd)].
      * left. destruct name; set_solver.
      * inversion Hin; subst.
        -- left. rewrite Hd in Hc. injection Hc as <-. set_solver.
        -- right. now exists code.
Qed.

Lemma players_loop_raise (codes : list string) (acc : gset string) (e : exn) :
  players_loop acc codes = Raise e
  ↔ ∃ pre code post, codes = (pre ++ code :: post)%list
                     ∧ decompose_player_code code = Raise e
                     ∧ ∀ c, c ∈ pre → returns (decompose_player_code c).
Proof.
  revert acc. induction codes as [|c codes IH]; intros acc; simpl.
  - split; [discriminate|]. intros (pre & code & post & H & _). now destruct pre.
  - destruct (decompose_player_code c) as [name|e'] eqn:Hc; simpl.
    + rewrite IH. split.
      * intros (pre & code & post & -> & Hd & Hpre).
        exists (c :: pre), code, post. split; [reflexivity|]. split; [exact Hd|].
        intros x Hx. inversion Hx; subst; [now exists name | now apply Hpre].
      * intros (pre & code & post & Heq & Hd & Hpre).
        destruct pre as [|x pre]; simpl in Heq; injection Heq as <- ->.
        -- congruence.
        -- exists pre, code, post. split; [reflexivity|]. split; [exact Hd|].
           intros y Hy. apply Hpre. now apply list_elem_of_further.
    + split.
      * intros [= <-]. exists [], c, codes. split; [reflexivity|].
        split; [exact Hc|]. intros x Hx. inversion Hx.
      * intros (pre & code & post & Heq & Hd & Hpre).
        destruct pre as [|x pre]; simpl in Heq; injection Heq as <- ->.
        -- congruence.
        -- destruct (Hpre c) as [a Ha]; [apply list_elem_of_here|]. congruence.
Qed.

Lemma str_le_total : Total str_le.
Proof. intros a b. apply String.leb_total. Qed.

Lemma str_le_trans : Transitive str_le.
Proof.
  intros a b c Hab Hbc. unfold str_le in *.
  apply Is_true_true. apply Is_true_true in Hab, Hbc.
  exact (transitivity (R := String.le) Hab Hbc).
Qed.

(** X15: the player list is sorted by code point and free of repetitions,
    and holds exactly the names the codes decompose to. *)
Theorem player_list_spec (codes l : list string) :
  get_player_list_from_df codes = Return l →
  StronglySorted str_le l
  ∧ NoDup l
  ∧ ∀ n, n ∈ l
         ↔ ∃ code, code ∈ codes ∧ decompose_player_code code = Return (Some n).
Proof.
  unfold get_player_list_from_df. intros H.
  apply bind_Return in H as (ps & Hl & H). injection H as <-.
  split; [apply (@StronglySorted_merge_sort _ str_le _ str_le_trans str_le_total)|].
  split.
  - rewrite merge_sort_Permutation. apply NoDup_elements.
  - intros n. rewrite merge_sort_Permutation, elem_of_elements.
    rewrite (players_loop_returns _ _ _ Hl n). split; [|now right].
    intros [H|H]; [set_solver | exact H].
Qed.

Lemma player_list_spec_witness :
  StronglySorted str_le ["Dan Biton"; "John Smith"]
  ∧ NoDup ["Dan Biton"; "John Smith"]
  ∧ ∀ n, n ∈ ["Dan Biton"; "John Smith"]
         ↔ ∃ code, code ∈ ["12.John Smith(5) - Passes accurate"; "Passes accurate";
                            "3.Dan Biton (10) - Shots"; "12.John Smith(5) - Goals"]
                   ∧ decompose_player_code code = Return (Some n).
Proof.
  apply (player_list_spec
           ["12.John Smith(5) - Passes accurate"; "Passes accurate";
            "3.Dan Biton (10) - Shots"; "12.John Smith(5) - Goals"]).
  vm_compute. reflexivity.
Defined.

(** X16: the player list fails exactly when some code fails to decompose,
    that is, has the three markers and no "." before its first " - "; one
    such code among any number of good ones is enough, and the failure is
    an [IndexError]. *)
Theorem player_list_fails_iff (codes : list string) (e : exn) :
  get_player_list_from_df codes = Raise e
  ↔ e = IndexError
    ∧ ∃ code, code ∈ codes ∧ has_markers code = true
              ∧ str_contains "." (before_first " - " code) = false.
Proof.
  unfold get_player_list_from_df. split.
  - intros H. apply bind_Raise in H as [H|(ps & _ & H)]; [|discriminate].
    apply players_loop_raise in H as (pre & code & post & -> & Hd & _).
    apply decompose_raise_iff in Hd as (-> & Hm & Hdot).
    split; [reflexivity|]. exists code. split; [|auto].
    apply elem_of_app. right. apply list_elem_of_here.
  - intros (-> & code & Hin & Hm & Hdot).
    assert (Hd : decompose_player_code code = Raise IndexError)
      by (apply decompose_raise_iff; auto).
    destruct (players_loop ∅ codes) as [ps|e] eqn:Hl; simpl.
    + exfalso. clear Hm Hdot. revert Hl. generalize (∅ : gset string).
      induction codes as [|c codes IH]; intros acc; [inversion Hin|]. simpl.
      destruct (decompose_player_code c) as [name|e'] eqn:Hc; simpl; [|discriminate].
      inversion Hin; subst; [congruence|]. now apply IH.
    + f_equal. apply players_loop_raise in Hl as (pre & c & post & _ & Hc & _).
      now apply decompose_raise_iff in Hc as (-> & _).
Qed.

(** ** The shape of a player name *)

Lemma append_nil_r (s : string) : s +:+ "" = s.
Proof. induction s as [|c s IH]; [reflexivity|]. rewrite append_cons. now f_equal. Qed.

Lemma append_length (a b : string) :
  String.length (a +:+ b) = String.length a + String.length b.
Proof.
  induction a as [|c a IH]; [reflexivity|]. rewrite append_cons. simpl. now f_equal.
Qed.

Lemma rev_app_append (s1 s2 : string) :
  String.rev_app s1 s2 = String.rev s1 +:+ s2.
Proof.
  unfold String.rev. revert s2. induction s1 as [|c s1 IH]; intros s2; simpl.
  - reflexivity.
  - rewrite (IH (String c s2)), (IH (String c "")), append_assoc. reflexivity.
Qed.

Lemma rev_cons (c : ascii) (s : string) :
  String.rev (String c s) = String.rev s +:+ String c "".
Proof. unfold String.rev at 1. simpl. apply rev_app_append. Qed.

Lemma rev_append (a b : string) :
  String.rev (a +:+ b) = String.rev b +:+ String.rev a.
Proof.
  induction a as [|c a IH].
  - rewrite append_nil. symmetry. apply append_nil_r.
  - rewrite append_cons, !rev_cons, IH, append_assoc. reflexivity.
Qed.

Lemma rev_rev (s : string) : String.rev (String.rev s) = s.
Proof.
  induction s as [|c s IH]; [reflexivity|].
  rewrite rev_cons, rev_append, IH. reflexivity.
Qed.

Lemma lstrip_suffix (space : ascii → bool) (s : string) :
  ∃ p, s = p +:+ lstrip_with space s.
Proof.
  induction s as [|c s [p IH]]; simpl; [now exists ""|].
  destruct (space c).
  - exists (String c p). rewrite append_cons. now f_equal.
  - now exists "".
Qed.

Lemma lstrip_head (space : ascii → bool) (s : string) :
  lstrip_with space s = ""
  ∨ ∃ c t, lstrip_with space s = String c t ∧ space c = false.
Proof.
  induction s as [|c s IH]; simpl; [now left|].
  destruct (space c) eqn:Hc; [exact IH|]. right. now exists c, s.
Qed.

Lemma lstrip_fixed (space : ascii → bool) (c : ascii) (t : string) :
  space c = false → lstrip_with space (String c t) = String c t.
Proof. intros H. simpl. now rewrite H. Qed.

Lemma lstrip_idem (space : ascii → bool) (s : string) :
  lstrip_with space (lstrip_with space s) = lstrip_with space s.
Proof.
  destruct (lstrip_head space s) as [->|(c & t & -> & Hc)]; [reflexivity|].
  now apply lstrip_fixed.
Qed.

Lemma lstrip_keeps_last (space : ascii → bool) (w : string) (c : ascii) :
  space c = false →
  ∃ v, lstrip_with space (w +:+ String c "") = v +:+ String c "".
Proof.
  intros Hc. induction w as [|x w IH].
  - exists "". rewrite append_nil. now apply lstrip_fixed.
  - rewrite append_cons. simpl. destruct (space x); [exact IH|].
    exists (String x w). reflexivity.
Qed.

(** Stripping cuts a piece out of the string ... *)
Lemma strip_substring (space : ascii → bool) (s : string) :
  is_substring (strip_with space s) s.
Proof.
  unfold strip_with.
  destruct (lstrip_suffix space s) as [p Hp].
  destruct (lstrip_suffix space (String.rev (lstrip_with space s))) as [q Hq].
  exists p, (String.rev q). rewrite Hp at 1. f_equal.
  rewrite <- rev_append, <- Hq, rev_rev. reflexivity.
Qed.

(** ... and leaves nothing more to strip. *)
Lemma strip_idem (space : ascii → bool) (s : string) :
  strip_with space (strip_with space s) = strip_with space s.
Proof.
  unfold strip_with.
  destruct (lstrip_head space s) as [->|(c & t & -> & Hc)]; [reflexivity|].
  rewrite rev_cons.
  destruct (lstrip_keeps_last space (String.rev t) c Hc) as [v Hv].
  assert (Hid : lstrip_with space (v +:+ String c "") = v +:+ String c "").
  { rewrite <- Hv. apply lstrip_idem. }
  rewrite Hv, rev_append. change (String.rev (String c "")) with (String c "").
  rewrite append_cons, append_nil, (lstrip_fixed space c _ Hc).
  rewrite rev_cons, rev_rev, Hid, rev_append. reflexivity.
Qed.

Lemma str_drop_append (p s : string) : str_drop (String.length p) (p +:+ s) = s.
Proof. induction p as [|c p IH]; [now destruct s | exact IH]. Qed.

Lemma str_take_length (i : nat) (s : string) :
  (i ≤ String.length s)%nat → String.length (str_take i s) = i.
Proof.
  revert i. induction s as [|c s IH]; intros [|i] H; simpl in *; try lia.
  f_equal. apply IH. lia.
Qed.

Lemma str_find_bound (s sub : string) (i : nat) :
  str_find s sub = Some i → (i ≤ String.length s)%nat.
Proof.
  revert i. induction s as [|c s IH]; intros i.
  - rewrite str_find_nil. destruct (String.prefix sub ""); [|discriminate].
    intros [= <-]. simpl; lia.
  - rewrite str_find_cons. destruct (String.prefix sub (String c s)).
    + intros [= <-]. simpl; lia.
    + destruct (str_find s sub) as [j|]; [|discriminate]. simpl.
      intros [= <-]. specialize (IH j eq_refl). lia.
Qed.

Lemma before_first_substring (sep s : string) : is_substring (before_first sep s) s.
Proof.
  unfold before_first. destruct (str_find s sep) as [i|] eqn:Hf.
  - exists "", (sep +:+ str_drop (i + String.length sep) s).
    rewrite append_nil. now apply str_find_occurs.
  - exists "", "". now rewrite append_nil, append_nil_r.
Qed.

Lemma after_first_substring (sep s x : string) :
  after_first sep s = Some x → is_substring x s.
Proof.
  unfold after_first. destruct (str_find s sep) as [i|] eqn:Hf; [|discriminate].
  intros [= <-]. exists (str_take i s +:+ sep), "".
  rewrite append_nil_r, append_assoc. now apply str_find_occurs.
Qed.

(** The part before the first separator holds no separator. *)
Lemma before_first_no_sep (sep s : string) :
  sep ≠ "" → str_contains sep (before_first sep s) = false.
Proof.
  intros Hsep. unfold before_first.
  destruct (str_find s sep) as [i|] eqn:Hf.
  - destruct (str_contains sep (str_take i s)) eqn:Hc; [|reflexivity]. exfalso.
    apply str_contains_substring in Hc as (p & r & Hp).
    pose proof (str_find_occurs _ _ _ Hf) as Hs.
    pose proof (str_take_length i s (str_find_bound _ _ _ Hf)) as Hlen.
    rewrite Hp, !append_length in Hlen.
    assert (0 < String.length sep)%nat by (destruct sep; [congruence | simpl; lia]).
    assert (Hlt : (String.length p < i)%nat) by lia.
    pose proof (str_find_first _ _ _ _ Hf Hlt) as Hpre.
    rewrite Hs, Hp, !append_assoc, str_drop_append, prefix_of_append in Hpre.
    discriminate.
  - unfold str_contains. rewrite Hf. apply bool_decide_false. intros [? [=]].
Qed.

Lemma not_contains_substring (sep a b : string) :
  is_substring a b → str_contains sep b = false → str_contains sep a = false.
Proof.
  intros Hab Hb. destruct (str_contains sep a) eqn:Ha; [|reflexivity].
  apply str_contains_substring in Ha.
  rewrite (proj2 (str_contains_substring sep b)) in Hb; [discriminate|].
  now apply (is_substring_trans sep a b).
Qed.

(** X17: a name the decomposition returns is a trimmed piece of the code:
    it occurs in the code, is neither empty nor "None", has no whitespace
    left to strip, and holds neither a "(" nor a " - ". *)
Theorem decomposed_name_shape (code n : string) :
  decompose_player_code code = Return (Some n) →
  n ≠ "" ∧ n ≠ "None" ∧ str_strip n = n ∧ is_substring n code
  ∧ str_contains "(" n = false ∧ str_contains " - " n = false.
Proof.
  rewrite decompose_player_code_cases. unfold name_segment.
  destruct (has_markers code); [|discriminate].
  destruct (after_first "." (before_first " - " code)) as [x|] eqn:Hx; [|discriminate].
  simpl. set (seg := str_strip (before_first "(" x)).
  destruct (str_truthy seg && bool_decide (seg ≠ "None")) eqn:Hg; [|discriminate].
  intros [= <-]. apply andb_true_iff in Hg as [Hne Hnn].
  apply str_truthy_nonempty in Hne. apply bool_decide_eq_true in Hnn.
  assert (H1 : is_substring seg (before_first "(" x)) by apply strip_substring.
  assert (H2 : is_substring seg x).
  { eapply is_substring_trans; [exact H1 | apply before_first_substring]. }
  assert (H3 : is_substring seg (before_first " - " code)).
  { eapply is_substring_trans; [exact H2 | eapply after_first_substring; exact Hx]. }
  repeat split; try assumption.
  - apply strip_idem.
  - eapply is_substring_trans; [exact H3 | apply before_first_substring].
  - apply (not_contains_substring "(" seg _ H1), before_first_no_sep. discriminate.
  - apply (not_contains_substring " - " seg _ H3), before_first_no_sep. discriminate.
Qed.

Lemma decomposed_name_shape_witness :
  "Dan Biton" ≠ "" ∧ "Dan Biton" ≠ "None" ∧ str_strip "Dan Biton" = "Dan Biton"
  ∧ is_substring "Dan Biton" "3.Dan Biton (10) - Shots"
  ∧ str_contains "(" "Dan Biton" = false ∧ str_contains " - " "Dan Biton" = false.
Proof.
  apply (decomposed_name_shape "3.Dan Biton (10) - Shots" "Dan Biton").
  vm_compute. reflexivity.
Defined.

(** ** The simple CSV export *)

Lemma all_label_keys_from (evs : list event) (acc : gset (option string))
    (k : option string) :
  k ∈ fold_left (fun acc ev => acc ∪ dom (labels ev)) evs acc
  ↔ k ∈ acc ∨ ∃ ev, ev ∈ evs ∧ is_Some (labels ev !! k).
Proof.
  revert acc. induction evs as [|x evs IH]; intros acc; simpl.
  - split; [now left|]. intros [H|(ev & Hin & _)]; [exact H | inversion Hin].
  - rewrite IH, elem_of_union, elem_of_dom. split.
    + intros [[H|H]|(ev & Hin & H)]; [now left | |].
      * right. exists x. split; [apply list_elem_of_here | exact H].
      * right. exists ev. split; [now apply list_elem_of_further | exact H].
    + intros [H|(ev & Hin & H)]; [now left; left|].
      inversion Hin; subst; [left; now right|]. right. now exists ev.
Qed.

(** The label keys are the groups some event carries. *)
Lemma all_label_keys_spec (evs : list event) (k : option string) :
  k ∈ all_label_keys evs ↔ ∃ ev, ev ∈ evs ∧ is_Some (labels ev !! k).
Proof.
  unfold all_label_keys. rewrite all_label_keys_from. split; [|now right].
  intros [H|H]; [set_solver | exact H].
Qed.

Lemma omap_all_some {A} (l : list (option A)) :
  None ∉ l →
  length (omap (fun k => k) l) = length l
  ∧ ∀ x, x ∈ omap (fun k => k) l ↔ Some x ∈ l.
Proof.
  induction l as [|[a|] l IH]; intros H; simpl.
  - split; [reflexivity|]. intros x. split; intros Hx; inversion Hx.
  - destruct IH as [IH1 IH2]; [intros Hn; apply H; now apply list_elem_of_further|].
    split; [now f_equal|]. intros x. rewrite !elem_of_cons, IH2.
    split; intros [Hx|Hx]; auto; left; congruence.
  - exfalso. apply H. apply list_elem_of_here.
Qed.

Lemma sorted_label_keys_spec (keys_set : gset (option string)) (keys : list string) :
  sorted_label_keys keys_set = Some keys →
  length keys = size keys_set ∧ ∀ g, g ∈ keys ↔ Some g ∈ keys_set.
Proof.
  unfold sorted_label_keys. destruct (decide (None ∈ keys_set)) as [|Hn]; [discriminate|].
  intros [= <-].
  destruct (omap_all_some (elements keys_set)) as [Hlen Hmem].
  { now rewrite elem_of_elements. }
  split.
  - rewrite merge_sort_Permutation. exact Hlen.
  - intros g. rewrite merge_sort_Permutation, Hmem. apply elem_of_elements.
Qed.

(** X18: the table the export writes is rectangular: one row per event,
    every row as long as the header, which has the four fixed columns and
    one column per distinct label group. *)
Theorem export_is_rectangular (self : parser) (header : list string)
    (rows : list (list cell)) :
  export_to_simple_csv self = Some (header, rows) →
  length rows = length (events self)
  ∧ length header = 4 + size (all_label_keys (events self))
  ∧ ∀ row, row ∈ rows → length row = length header.
Proof.
  unfold export_to_simple_csv. destruct (events self) as [|x evs] eqn:He; [discriminate|].
  rewrite <- He. clear He.
  destruct (sorted_label_keys (all_label_keys (events self))) as [keys|] eqn:Hk;
    [|discriminate].
  simpl. intros [= <- <-]. apply sorted_label_keys_spec in Hk as [Hlen _].
  unfold csv_headers. rewrite length_map, length_app, length_map. simpl.
  repeat split; [now rewrite Hlen|].
  intros row Hrow. apply list_elem_of_fmap in Hrow as (ev & -> & _).
  unfold csv_row. rewrite length_app, length_map. reflexivity.
Qed.

Lemma export_is_rectangular_witness :
  ∃ header rows,
    export_to_simple_csv (extracted sample_match) = Some (header, rows)
    ∧ length rows = 3 ∧ length header = 7
    ∧ ∀ row, row ∈ rows → length row = length header.
Proof.
  destruct (export_to_simple_csv (extracted sample_match)) as [[header rows]|] eqn:He;
    [|vm_compute in He; discriminate].
  exists header, rows. split; [reflexivity|].
  destruct (export_is_rectangular (extracted sample_match) header rows He)
    as (Hr & Hh & Hall).
  split; [exact Hr|]. split; [rewrite Hh; vm_compute; reflexivity | exact Hall].
Defined.

(** X19: the export writes nothing exactly when there are no events or
    some event has a label whose group is [None]: one such label keeps
    every event out of the file. *)
Theorem export_writes_nothing_iff (self : parser) :
  export_to_simple_csv self = None
  ↔ events self = [] ∨ ∃ ev, ev ∈ events self ∧ is_Some (labels ev !! None).
Proof.
  unfold export_to_simple_csv, sorted_label_keys.
  destruct (events self) as [|x evs] eqn:He; [split; auto|].
  rewrite <- He.
  destruct (decide (None ∈ all_label_keys (events self))) as [Hn|Hn]; simpl.
  - split; [|reflexivity]. intros _. right. now apply all_label_keys_spec.
  - split; [discriminate|]. intros [H|H].
    + congruence.
    + exfalso. apply Hn. now apply all_label_keys_spec.
Qed.

(** X20: no label is lost in the export: for every event and every label
    it carries there is a column headed "label_" and the lower-cased group
    whose cell in the row of that event is the value of the label. *)
Theorem export_keeps_labels (self : parser) (header : list string)
    (rows : list (list cell)) (i : nat) (ev : event) (group : string)
    (value : option string) :
  export_to_simple_csv self = Some (header, rows) →
  events self !! i = Some ev →
  labels ev !! Some group = Some value →
  ∃ j row, header !! (4 + j) = Some ("label_" +:+ py_lower group)
           ∧ rows !! i = Some row
           ∧ row !! (4 + j) = Some (CellText value).
Proof.
  unfold export_to_simple_csv. destruct (events self) as [|x evs] eqn:He; [discriminate|].
  rewrite <- He. clear He.
  destruct (sorted_label_keys (all_label_keys (events self))) as [keys|] eqn:Hk;
    [|discriminate].
  simpl. intros [= <- <-] Hev Hl.
  apply sorted_label_keys_spec in Hk as [_ Hmem].
  assert (Hg : group ∈ keys).
  { apply Hmem, all_label_keys_spec. exists ev.
    split; [eapply list_elem_of_lookup_2; exact Hev | now exists value]. }
  apply list_elem_of_lookup in Hg as [j Hj].
  exists j, (csv_row keys ev). split; [|split].
  - unfold csv_headers.
    change (map (fun key => "label_" +:+ py_lower key) keys !! j
            = Some ("label_" +:+ py_lower group)).
    now rewrite list_lookup_fmap, Hj.
  - rewrite list_lookup_fmap, Hev. reflexivity.
  - unfold csv_row.
    change (map (fun key => CellText (labels_get_default ev key "")) keys !! j
            = Some (CellText value)).
    rewrite list_lookup_fmap, Hj. simpl. unfold labels_get_default.
    now rewrite Hl.
Qed.

Lemma export_keeps_labels_witness :
  ∃ header rows j row,
    export_to_simple_csv (extracted two_teams) = Some (header, rows)
    ∧ header !! (4 + j) = Some "label_team"
    ∧ rows !! 1 = Some row
    ∧ row !! (4 + j) = Some (CellText (Some "Hapoel Kfar Shalem")).
Proof.
  destruct (export_to_simple_csv (extracted two_teams)) as [[header rows]|] eqn:He;
    [|vm_compute in He; discriminate].
  destruct (events (extracted two_teams) !! 1) as [ev|] eqn:Hev;
    [|vm_compute in Hev; discriminate].
  destruct (export_keeps_labels (extracted two_teams) header rows 1 ev "Team"
              (Some "Hapoel Kfar Shalem") He Hev) as (j & row & Hh & Hr & Hc).
  - vm_compute in Hev. injection Hev as <-. vm_compute. reflexivity.
  - exists header, rows, j, row. auto.
Defined.

(** ** The summary of one half *)

Lemma half_filters_disjoint (evs : list event) (h k : string) :
  k ≠ h →
  List.filter (fun ev => bool_decide (labels_get ev "Half" = Some k))
    (List.filter (fun ev => bool_decide (labels_get ev "Half" = Some h)) evs) = [].
Proof.
  intros Hne. induction evs as [|ev evs IH]; simpl; [reflexivity|].
  destruct (bool_decide (labels_get ev "Half" = Some h)) eqn:Hh; [|exact IH].
  simpl. apply bool_decide_eq_true in Hh.
  rewrite bool_decide_false by congruence. exact IH.
Qed.

(** X21: the summary of the events one half filter returned counts that
    half only: its [halves] has no other key. *)
Theorem summary_of_half_counts_half (self : parser) (half : string)
    (s : summary_stats) :
  get_summary_stats (mk_parser (root self) (get_events_by_half self half))
  = Return (Stats s) →
  ∀ k n, halves s !! k = Some n →
         k = half ∧ n = length (get_events_by_half self half).
Proof.
  intros H k n Hk.
  apply summary_returns_fields in H as (_ & _ & Hh & _). rewrite Hh in Hk.
  apply tally_count in Hk as (_ & Hpos & ->).
  unfold get_events_by_half in *. simpl in *.
  destruct (decide (k = half)) as [->|Hne].
  - split; [reflexivity|]. now rewrite filter_idempotent.
  - rewrite half_filters_disjoint in Hpos by assumption. simpl in Hpos. lia.
Qed.

Lemma summary_of_half_counts_half_witness :
  ∃ s, get_summary_stats
         (mk_parser (root (extracted sample_match))
            (get_events_by_half (extracted sample_match) "1"))
       = Return (Stats s)
       ∧ halves s !! "1" = Some 2
       ∧ ∀ k n, halves s !! k = Some n → k = "1" ∧ n = 2.
Proof.
  eexists. split; [vm_compute; reflexivity|]. split; [vm_compute; reflexivity|].
  intros k n Hk.
  match type of Hk with halves ?s !! _ = _ =>
    destruct (summary_of_half_counts_half (extracted sample_match) "1" s) with k n
      as [Hk1 Hn] end.
  - vm_compute. reflexivity.
  - exact Hk.
  - split; [exact Hk1|]. rewrite Hn. vm_compute. reflexivity.
Defined.
